(** * ACME customer-support bot (src/src/App.tsx): model and verification

    The component [CustomerSupportBot] is embedded function by function:
    the JavaScript string and regular-expression primitives it relies on,
    the intent classifier [detectIntent], the mocked tools, the sentiment
    heuristic, the typing-effect streamer [streamModelReply] and the turn
    handler [handleSend], the last two as transitions on the component
    state.

    Texts are [string]s, one character per code unit.  ASCII text is
    modelled exactly; the few non-ASCII punctuation marks of the source's
    literals appear as their UTF-8 bytes, which every pattern of the
    program treats alike (they are neither word characters, digits nor
    spaces). *)

From Stdlib Require Import Bool Arith NArith List Lia.
From Stdlib Require Import Strings.Ascii Strings.String.
Import ListNotations.

Local Open Scope string_scope.
Local Open Scope list_scope.
Local Open Scope nat_scope.

(** ** Characters and strings of the host language *)

Module Js.

Definition chars (s : string) : list ascii := list_ascii_of_string s.
Definition text (l : list ascii) : string := string_of_list_ascii l.

Definition between (lo hi : nat) (c : ascii) : bool :=
  let n := nat_of_ascii c in (lo <=? n) && (n <=? hi).

Definition isUpper : ascii -> bool := between 65 90.
Definition isLower : ascii -> bool := between 97 122.
Definition isDigit : ascii -> bool := between 48 57.

(** [\w] of a pattern without the unicode flag: [A-Za-z0-9_]. *)
Definition isWord (c : ascii) : bool :=
  isUpper c || isLower c || isDigit c || (nat_of_ascii c =? 95).

(** [\s] and the characters removed by [trim], among the ASCII
    characters: tab, line feed, vertical tab, form feed, carriage return
    and space.  (The host counts further characters outside ASCII, such
    as the no-break space.) *)
Definition isSpace (c : ascii) : bool :=
  between 9 13 c || (nat_of_ascii c =? 32).

(** Line terminators, which [.] does not match. *)
Definition isLineTerminator (c : ascii) : bool :=
  (nat_of_ascii c =? 10) || (nat_of_ascii c =? 13).

(** Case mapping, on the ASCII letters.  (The host also maps letters
    outside ASCII.) *)
Definition lowerChar (c : ascii) : ascii :=
  if isUpper c then ascii_of_nat (nat_of_ascii c + 32) else c.

Definition upperChar (c : ascii) : ascii :=
  if isLower c then ascii_of_nat (nat_of_ascii c - 32) else c.

Definition toLowerCase (s : string) : string := text (map lowerChar (chars s)).
Definition toUpperCase (s : string) : string := text (map upperChar (chars s)).

Fixpoint dropWhile (p : ascii -> bool) (l : list ascii) : list ascii :=
  match l with
  | c :: l' => if p c then dropWhile p l' else l
  | [] => []
  end.

(** [String.prototype.trim]. *)
Definition trim (s : string) : string :=
  text (rev (dropWhile isSpace (rev (dropWhile isSpace (chars s))))).

(** [s.slice(a, b)] for non-negative [a] and [b]: both ends are clamped to
    the length of [s]. *)
Definition slice (a b : nat) (s : string) : string :=
  text (firstn (b - a) (skipn a (chars s))).

End Js.

(** ** Regular expressions

    The fragment of the pattern language that the program's literals use,
    with the backtracking semantics of the host: alternatives are tried
    left to right, quantifiers are greedy, and a search returns the match
    at the leftmost start position. *)

Module Regex.

Import Js.

(** Character sets. *)
Inductive cset : Type :=
| CChar (c : ascii)            (* a literal character *)
| CRange (lo hi : ascii)       (* lo-hi inside a class *)
| CDigit                       (* \d *)
| CSpace                       (* \s *)
| CDot                         (* . *)
| CUnion (a b : cset).         (* [ab] *)

Inductive regex : Type :=
| Empty                        (* the empty pattern *)
| Chr (cs : cset)              (* one character *)
| Seq (r1 r2 : regex)          (* r1r2 *)
| Alt (r1 r2 : regex)          (* r1|r2 *)
| Rep (cs : cset) (min : nat)  (* cs{min,}, greedy; cs* is cs{0,} *)
| Group (n : nat) (r : regex)  (* the n-th capturing group *)
| Bol                          (* ^ *)
| WordB.                       (* \b *)

(** Derived forms. *)
Fixpoint lit_chars (l : list ascii) : regex :=
  match l with
  | [] => Empty
  | c :: l' => Seq (Chr (CChar c)) (lit_chars l')
  end.

(** A literal word. *)
Definition lit (s : string) : regex := lit_chars (chars s).

(** [r?], greedy. *)
Definition opt (r : regex) : regex := Alt r Empty.

(** [r{n}]. *)
Fixpoint times (n : nat) (r : regex) : regex :=
  match n with
  | 0 => Empty
  | S n' => Seq r (times n' r)
  end.

(** [w1|w2|...|wn] for literal words. *)
Fixpoint words (ws : list string) : regex :=
  match ws with
  | [] => Empty
  | [w] => lit w
  | w :: ws' => Alt (lit w) (words ws')
  end.

(** Membership of a character in a set.  Under the [i] flag two
    characters are the same when their upper-case forms are. *)
Fixpoint in_cset (icase : bool) (cs : cset) (c : ascii) : bool :=
  match cs with
  | CChar x =>
      if icase then Ascii.eqb (upperChar x) (upperChar c) else Ascii.eqb x c
  | CRange lo hi =>
      let inside x := between (nat_of_ascii lo) (nat_of_ascii hi) x in
      if icase then inside c || inside (lowerChar c) || inside (upperChar c)
      else inside c
  | CDigit => isDigit c
  | CSpace => isSpace c
  | CDot => negb (isLineTerminator c)
  | CUnion a b => in_cset icase a c || in_cset icase b c
  end.

(** Captures: group number and captured text, latest binding first. *)
Definition caps : Type := list (nat * list ascii).

Fixpoint lookup (n : nat) (c : caps) : option (list ascii) :=
  match c with
  | [] => None
  | (m, v) :: c' => if m =? n then Some v else lookup n c'
  end.

(** The characters consumed between the input [s] and its suffix [s']. *)
Definition taken (s s' : list ascii) : list ascii :=
  firstn (List.length s - List.length s') s.

Definition isWordOpt (o : option ascii) : bool :=
  match o with Some c => isWord c | None => false end.

Section Matcher.

Variable R : Type.

(** A continuation receives the character before the current position
    ([None] at the start of the input), the rest of the input and the
    captures. *)
Definition cont : Type := option ascii -> list ascii -> caps -> option R.

(** Greedy repetition of a one-character test: the longest run first,
    then shorter ones down to [min]. *)
Fixpoint rep (p : ascii -> bool) (min : nat) (prev : option ascii)
    (s : list ascii) (k : option ascii -> list ascii -> option R) : option R :=
  let stop := if min =? 0 then k prev s else None in
  match s with
  | c :: s' =>
      if p c then
        match rep p (pred min) (Some c) s' k with
        | Some x => Some x
        | None => stop
        end
      else stop
  | [] => stop
  end.

Fixpoint rmatch (icase : bool) (r : regex) (prev : option ascii)
    (s : list ascii) (c : caps) (k : cont) : option R :=
  match r with
  | Empty => k prev s c
  | Chr cs =>
      match s with
      | x :: s' => if in_cset icase cs x then k (Some x) s' c else None
      | [] => None
      end
  | Seq r1 r2 =>
      rmatch icase r1 prev s c (fun p' s' c' => rmatch icase r2 p' s' c' k)
  | Alt r1 r2 =>
      match rmatch icase r1 prev s c k with
      | Some x => Some x
      | None => rmatch icase r2 prev s c k
      end
  | Rep cs min =>
      rep (in_cset icase cs) min prev s (fun p' s' => k p' s' c)
  | Group n r1 =>
      rmatch icase r1 prev s c (fun p' s' c' => k p' s' ((n, taken s s') :: c'))
  | Bol =>
      match prev with None => k prev s c | Some _ => None end
  | WordB =>
      if xorb (isWordOpt prev) (isWordOpt (hd_error s)) then k prev s c else None
  end.

End Matcher.

Arguments rep {R}.
Arguments rmatch {R}.

(** One attempt at the current position. *)
Definition attempt (icase : bool) (r : regex) (prev : option ascii)
    (s : list ascii) : option caps :=
  rmatch icase r prev s [] (fun _ _ c => Some c).

(** The search of [RegExp.prototype.exec] without the global or sticky
    flag: start positions from left to right. *)
Fixpoint search (icase : bool) (r : regex) (prev : option ascii)
    (s : list ascii) : option caps :=
  match attempt icase r prev s with
  | Some c => Some c
  | None =>
      match s with
      | [] => None
      | x :: s' => search icase r (Some x) s'
      end
  end.

Record pattern : Type := Pattern { source : regex; ignoreCase : bool }.

Definition exec (p : pattern) (s : string) : option caps :=
  search (ignoreCase p) (source p) None (chars s).

(** [p.test(s)]. *)
Definition test (p : pattern) (s : string) : bool :=
  match exec p s with Some _ => true | None => false end.

(** [s.match(p)?.[n]] for a group [n >= 1]. *)
Definition group (n : nat) (p : pattern) (s : string) : option string :=
  match exec p s with
  | Some c => option_map text (lookup n c)
  | None => None
  end.

End Regex.

(** ** The classifier *)

Import Js Regex.

Inductive Intent : Type :=
| order_status (orderId : option string)
| shipping_eta (orderId : option string) (postalCode : option string)
| return_policy
| refund_policy
| account_help
| escalate
| unknown.

(** [/#?(?:order|ord)\s*([a-z0-9-]{5,})/i] *)
Definition idPattern : pattern :=
  Pattern
    (Seq (opt (Chr (CChar "#")))
      (Seq (Alt (lit "order") (lit "ord"))
        (Seq (Rep CSpace 0)
          (Group 1
            (Rep (CUnion (CRange "a" "z") (CUnion (CRange "0" "9") (CChar "-")))
                 5)))))
    true.

(** [/\b(\d{5})(?:-\d{4})?\b/] *)
Definition zipPattern : pattern :=
  Pattern
    (Seq WordB
      (Seq (Group 1 (times 5 (Chr CDigit)))
        (Seq (opt (Seq (Chr (CChar "-")) (times 4 (Chr CDigit))))
          WordB)))
    false.

(** [/(a|b|c).*(d|e)/]: a word of [l], anything, a word of [r]. *)
Definition cooccur (l r : list string) : pattern :=
  Pattern (Seq (Group 1 (words l)) (Seq (Rep CDot 0) (Group 2 (words r)))) false.

(** [/(where|status|track).*(order|package)/] *)
Definition orderStatusPattern : pattern :=
  cooccur ["where"; "status"; "track"] ["order"; "package"].

(** [/(when|arrive|coming|eta|delivery).*(order|package|shipping)/] *)
Definition shippingEtaPattern : pattern :=
  cooccur ["when"; "arrive"; "coming"; "eta"; "delivery"]
          ["order"; "package"; "shipping"].

(** [/(return|exchange).*(policy|how|can i)/] *)
Definition returnPolicyPattern : pattern :=
  cooccur ["return"; "exchange"] ["policy"; "how"; "can i"].

(** [/(refund).*(policy|how|timeline)/] *)
Definition refundPolicyPattern : pattern :=
  cooccur ["refund"] ["policy"; "how"; "timeline"].

(** [/(login|account|password|profile|email change)/] *)
Definition accountHelpPattern : pattern :=
  Pattern
    (Group 1 (words ["login"; "account"; "password"; "profile"; "email change"]))
    false.

(** [/(human|agent|representative|someone|escalate)/] *)
Definition escalatePattern : pattern :=
  Pattern
    (Group 1 (words ["human"; "agent"; "representative"; "someone"; "escalate"]))
    false.

Definition detectIntent (text : string) : Intent :=
  let t := toLowerCase text in
  let idMatch := group 1 idPattern t in
  let zipMatch := group 1 zipPattern t in
  if test orderStatusPattern t then order_status idMatch
  else if test shippingEtaPattern t then shipping_eta idMatch zipMatch
  else if test returnPolicyPattern t then return_policy
  else if test refundPolicyPattern t then refund_policy
  else if test accountHelpPattern t then account_help
  else if test escalatePattern t then escalate
  else unknown.

(** ** Injected randomness and the clock

    A value of [Math.random()] is a double in [0, 1), that is a finite
    binary fraction [0.b1 b2 ... bn], given by its bits.  The engines
    draw a multiple of [2^-53]: the first 53 bits are read, and each of
    these fractions is a double. *)

Definition random : Type := list bool.

Definition bits53 (r : random) : list bool := firstn 53 r.

Fixpoint numerator (bits : list bool) (acc : N) : N :=
  match bits with
  | [] => acc
  | b :: bits' => numerator bits' (2 * acc + (if b then 1 else 0))%N
  end.

Definition num (r : random) : N := numerator (bits53 r) 0%N.
Definition den (r : random) : N := (2 ^ N.of_nat (List.length (bits53 r)))%N.

(** The double nearest to [m / d] for a power of two [d], as a numerator
    over the same [d]: 53 significant bits of [m] are kept, and the rest
    is rounded to nearest, ties to even. *)
Definition roundDouble (m : N) : N :=
  if (N.size m <=? 53)%N then m
  else
    let sh := (N.size m - 53)%N in
    let q := (m / 2 ^ sh)%N in
    let rest := (m mod 2 ^ sh)%N in
    let half := (2 ^ (sh - 1))%N in
    let up := (half <? rest)%N || ((rest =? half)%N && N.odd q) in
    ((if up then q + 1 else q) * 2 ^ sh)%N.

(** [Math.floor(Math.random() * k)]: the product is a double, the exact
    product rounded. *)
Definition floorTimes (k : N) (r : random) : nat :=
  N.to_nat (roundDouble (k * num r) / den r).

Definition digit36 (d : N) : ascii :=
  nth (N.to_nat d) (chars "0123456789abcdefghijklmnopqrstuvwxyz") "?"%char.

(** The fractional digits in radix 36 of [n / d]: the expansion of a
    binary fraction is finite, and [fuel] bounds its length. *)
Fixpoint fraction36 (fuel : nat) (n d : N) : list ascii :=
  match fuel with
  | 0 => []
  | S fuel' =>
      if (n =? 0)%N then []
      else digit36 ((36 * n) / d) :: fraction36 fuel' ((36 * n) mod d) d
  end.

(** [x.toString(36)] for [x] in [0, 1): ["0"] for zero, otherwise ["0."]
    and the fractional digits.  The digits are those of the exact
    expansion; the host may print a shorter prefix when that already
    identifies the double, and agrees with the exact expansion for zero
    and for fractions of a single digit such as one half. *)
Definition toString36 (r : random) : string :=
  if (num r =? 0)%N then "0"
  else append "0." (text (fraction36 (List.length r) (num r) (den r))).

(** What a turn reads from its environment: one value of [Math.random()],
    [Date.now()] in milliseconds, and the host's rendering
    [new Date(ms).toDateString()]. *)
Record Env : Type := {
  rand : random;
  now : N;
  toDateString : N -> string
}.

(** ** Tools *)

Record ToolResult : Type := { title : string; body : string }.

Infix "+++" := append (right associativity, at level 60).

(** [!x] for an optional string: [undefined] and the empty string are falsy. *)
Definition falsy (x : option string) : bool :=
  match x with
  | None => true
  | Some s => String.eqb s ""
  end.

Definition str (x : option string) : string :=
  match x with Some s => s | None => "undefined" end.

Definition statusList : list string :=
  ["Processing"; "Packed"; "Shipped"; "Out for delivery"; "Delivered"].

Definition askOrderId : string :=
  "I can check that—please share your order ID (e.g., ORD-12345).".

Definition toolOrderStatus (orderId : option string) (e : Env) : ToolResult :=
  if falsy orderId then
    {| title := "Order status"; body := askOrderId |}
  else
    let status :=
      str (nth_error statusList (floorTimes (N.of_nat (List.length statusList)) (rand e))) in
    {| title := "Order status";
       body := "Order " +++ str orderId +++ " is currently: " +++ status
               +++ ". If this seems wrong, I can escalate to a human." |}.

Definition toolShippingEta (orderId postalCode : option string) (e : Env)
  : ToolResult :=
  if falsy orderId || falsy postalCode then
    {| title := "Shipping ETA";
       body := "Share your order ID and destination ZIP to estimate delivery." |}
  else
    let days := (2 + N.of_nat (floorTimes 4 (rand e)))%N in
    let etaDate := toDateString e (now e + days * 24 * 60 * 60 * 1000)%N in
    {| title := "Shipping ETA";
       body := "Estimated delivery for " +++ str orderId +++ " to "
               +++ str postalCode +++ ": " +++ etaDate +++ "." |}.

Definition toolReturnPolicy : ToolResult :=
  {| title := "Return policy";
     body := "You can return most items within 30 days in original condition. Start in My Orders > Return. Prepaid label provided in eligible regions." |}.

Definition toolRefundPolicy : ToolResult :=
  {| title := "Refund policy";
     body := "Refunds are issued to the original payment method within 5–7 business days after we receive your return." |}.

Definition toolAccountHelp : ToolResult :=
  {| title := "Account help";
     body := "For password resets, use Forgot Password on the sign-in page. For email or profile changes, go to Account Settings." |}.

Definition runToolForIntent (intent : Intent) (e : Env) : option ToolResult :=
  match intent with
  | order_status orderId => Some (toolOrderStatus orderId e)
  | shipping_eta orderId postalCode => Some (toolShippingEta orderId postalCode e)
  | return_policy => Some toolReturnPolicy
  | refund_policy => Some toolRefundPolicy
  | account_help => Some toolAccountHelp
  | escalate =>
      Some {| title := "Escalation";
              body := "I can connect you with a human agent. Please confirm: type 'yes' to proceed or ask anything else to continue with me." |}
  | unknown => None
  end.

(** ** Sentiment and tone *)

Inductive Sentiment : Type := positive | neutral | negative.

Definition negativeTerms : list string :=
  ["angry"; "upset"; "frustrated"; "bad"; "hate"; "terrible"; "worst";
   "unacceptable"; "late"; "delay"; "broken"; "missing"].

Definition positiveTerms : list string :=
  ["great"; "thanks"; "thank you"; "awesome"; "perfect"; "good"; "love"].

(** [/(angry|upset|...|missing)/] *)
Definition negPattern : pattern := Pattern (Group 1 (words negativeTerms)) false.

(** [/(great|thanks|thank you|awesome|perfect|good|love)/] *)
Definition posPattern : pattern := Pattern (Group 1 (words positiveTerms)) false.

Definition analyzeSentiment (text : string) : Sentiment :=
  let t := toLowerCase text in
  let neg := test negPattern t in
  let pos := test posPattern t in
  if neg && negb pos then negative
  else if pos && negb neg then positive
  else neutral.

Definition applyTone (reply userText : string) : string :=
  match analyzeSentiment userText with
  | negative => "I’m really sorry for the trouble. " +++ reply
  | positive => "Happy to hear that! " +++ reply
  | neutral => reply
  end.

(** ** Component state *)

Inductive Role : Type := user | model.

Record ChatMessage : Type := { role : Role; content : string }.

(** A scheduled [window.setTimeout(step, 16)]: the closure of [step],
    that is the [startIndex] and [fullText] of its stream and the current
    value of the counter [i]. *)
Record Stream : Type := { startIndex : nat; fullText : string; i : nat }.

(** A turn suspended at [await model.generateContent(historyText)], with
    what its continuation still uses: the prompt sent, the user's text
    and the [messages] array of the render the handler was created in. *)
Record Call : Type := {
  historyText : string;
  callTrimmed : string;
  callMessages : list ChatMessage
}.

(** The hooks of the component ([useState] and [useRef]), the timers that
    are scheduled and the turn that waits for the external model, if any.
    [streamingTimerRef] only ever receives the identifier of the latest
    timer and is read nowhere (the component never calls [clearTimeout]),
    so it is not represented. *)
Record AppState : Type := {
  messages : list ChatMessage;
  input : string;
  loading : bool;
  suggestions : list string;
  lastIntentRef : Intent;
  streamingIndex : option nat;
  timers : list Stream;
  awaiting : option Call
}.

Definition setMessages (f : list ChatMessage -> list ChatMessage) (st : AppState) :=
  {| messages := f (messages st); input := input st; loading := loading st;
     suggestions := suggestions st; lastIntentRef := lastIntentRef st;
     streamingIndex := streamingIndex st; timers := timers st;
     awaiting := awaiting st |}.

Definition setInput (v : string) (st : AppState) :=
  {| messages := messages st; input := v; loading := loading st;
     suggestions := suggestions st; lastIntentRef := lastIntentRef st;
     streamingIndex := streamingIndex st; timers := timers st;
     awaiting := awaiting st |}.

Definition setLoading (v : bool) (st : AppState) :=
  {| messages := messages st; input := input st; loading := v;
     suggestions := suggestions st; lastIntentRef := lastIntentRef st;
     streamingIndex := streamingIndex st; timers := timers st;
     awaiting := awaiting st |}.

Definition setSuggestions (v : list string) (st : AppState) :=
  {| messages := messages st; input := input st; loading := loading st;
     suggestions := v; lastIntentRef := lastIntentRef st;
     streamingIndex := streamingIndex st; timers := timers st;
     awaiting := awaiting st |}.

Definition setLastIntent (v : Intent) (st : AppState) :=
  {| messages := messages st; input := input st; loading := loading st;
     suggestions := suggestions st; lastIntentRef := v;
     streamingIndex := streamingIndex st; timers := timers st;
     awaiting := awaiting st |}.

Definition setStreamingIndex (v : option nat) (st : AppState) :=
  {| messages := messages st; input := input st; loading := loading st;
     suggestions := suggestions st; lastIntentRef := lastIntentRef st;
     streamingIndex := v; timers := timers st; awaiting := awaiting st |}.

Definition setTimers (v : list Stream) (st : AppState) :=
  {| messages := messages st; input := input st; loading := loading st;
     suggestions := suggestions st; lastIntentRef := lastIntentRef st;
     streamingIndex := streamingIndex st; timers := v; awaiting := awaiting st |}.

Definition setAwaiting (v : option Call) (st : AppState) :=
  {| messages := messages st; input := input st; loading := loading st;
     suggestions := suggestions st; lastIntentRef := lastIntentRef st;
     streamingIndex := streamingIndex st; timers := timers st; awaiting := v |}.

Definition initial : AppState :=
  {| messages :=
       [ {| role := model;
            content := "Hi! I’m your ACME support assistant. How can I help today?" |} ];
     input := "";
     loading := false;
     suggestions := ["Where is my order?"; "What’s your return policy?"; "Talk to a human"];
     lastIntentRef := unknown;
     streamingIndex := None;
     timers := [];
     awaiting := None |}.

(** ** Streaming typing effect *)

Definition isModel (m : ChatMessage) : bool :=
  match role m with model => true | user => false end.

(** [copy[at] = v] on a copy of the array, for [at] inside it. *)
Fixpoint assign (at_ : nat) (v : ChatMessage) (l : list ChatMessage) :=
  match l, at_ with
  | [], _ => []
  | _ :: l', 0 => v :: l'
  | m :: l', S n => m :: assign n v l'
  end.

(** The state update of one [step]: the message at
    [Math.min(startIndex, copy.length - 1)] receives the prefix, unless
    there is none or it is not a model message. *)
Definition reveal (startIndex : nat) (shown : string) (prev : list ChatMessage)
  : list ChatMessage :=
  let at_ := Nat.min startIndex (List.length prev - 1) in
  match nth_error prev at_ with
  | None => prev
  | Some current =>
      if isModel current
      then assign at_ {| role := model; content := shown |} prev
      else prev
  end.

(** The increment of the counter:
    [Math.max(1, Math.floor(fullText.length / 120))].  The length is that
    of the text of the model, which is [fullText.length] for ASCII text
    and never less than it. *)
Definition increment (fullText : string) : nat :=
  Nat.max 1 (String.length fullText / 120).

(** One run of [step] with the closure [s]: the state update, applied
    where it is issued, then the counter, and the successor is scheduled
    while the counter has not passed the length of the text. *)
Definition step (s : Stream) (st : AppState) : AppState :=
  let st := setMessages (reveal (startIndex s) (slice 0 (i s) (fullText s))) st in
  let i' := i s + increment (fullText s) in
  if i' <=? String.length (fullText s) then
    setTimers (timers st ++ [ {| startIndex := startIndex s;
                                 fullText := fullText s; i := i' |} ]) st
  else setStreamingIndex None st.

(** [streamModelReply], called from a handler whose render saw the array
    [messages0]: [messages.length] in its body is the length of that
    array, whatever has been queued with [setMessages] since. *)
Definition streamModelReply (messages0 : list ChatMessage) (fullText : string)
    (st : AppState) : AppState :=
  let st := setMessages (fun prev => prev ++ [ {| role := model; content := "" |} ]) st in
  let startIndex := List.length messages0 in
  let st := setStreamingIndex (Some startIndex) st in
  step {| startIndex := startIndex; fullText := fullText; i := 0 |} st.

(** ** The turn handler *)

(** [/^(yes|yep|yeah|confirm|please)\b/i] *)
Definition affirmativePattern : pattern :=
  Pattern
    (Seq Bol (Seq (Group 1 (words ["yes"; "yep"; "yeah"; "confirm"; "please"])) WordB))
    true.

Definition isEscalate (x : Intent) : bool :=
  match x with escalate => true | _ => false end.

Definition ticketId (e : Env) : string :=
  toUpperCase (slice 2 8 (toString36 (rand e))).

Definition ticketReply (e : Env) : string :=
  "Okay, connecting you to a human agent. I created support ticket #"
  +++ ticketId e +++ ". An agent will reach out by email shortly.".

Definition suggestionsFor (intent : Intent) : list string :=
  match intent with
  | order_status _ => ["Track shipping ETA"; "This seems wrong → escalate"; "Anything else?"]
  | shipping_eta _ _ => ["Remind me if delayed"; "Change delivery address"; "Talk to a human"]
  | return_policy => ["Start a return"; "Refund timeline"; "Anything else?"]
  | refund_policy => ["Check return status"; "Payment method changes"; "Talk to a human"]
  | account_help => ["Reset password"; "Change email"; "Close account"]
  | escalate => ["Yes, connect me"; "No, continue here"; "Anything else?"]
  | unknown => ["Where is my order?"; "What’s your return policy?"; "Talk to a human"]
  end.

Definition SUPPORT_SYSTEM_PROMPT : string :=
"You are a helpful, empathetic customer support assistant for ACME Store.
Policies:
- Greet warmly, be concise, and ask clarifying questions when needed.
- Never invent order data; if unknown, ask for order ID or email.
- Provide step-by-step troubleshooting for common issues (orders, returns, refunds, shipping, account, payments).
- Offer to escalate to a human agent when issues are sensitive or unresolved.
- Keep answers under 6 sentences unless the user asks for more detail.".

Definition newline : string := String (ascii_of_nat 10) "".

Fixpoint join (sep : string) (l : list string) : string :=
  match l with
  | [] => ""
  | [x] => x
  | x :: l' => x +++ sep +++ join sep l'
  end.

Definition labelled (m : ChatMessage) : string :=
  match role m with
  | user => "User: " +++ content m
  | model => "Assistant: " +++ content m
  end.

Definition apology : ChatMessage :=
  {| role := model;
     content := "Sorry, I ran into a problem generating a response. Please try again." |}.

(** [handleSend] up to its return or to the point where it waits for the
    external model.  [messages st] at entry is the array of the render
    that created the handler. *)
Definition handleSend (e : Env) (st : AppState) : AppState :=
  let messages0 := messages st in
  let trimmed := trim (input st) in
  if String.eqb trimmed "" || loading st then st
  else
    let st := setLoading true st in
    let nextMessages := messages0 ++ [ {| role := user; content := trimmed |} ] in
    let st := setMessages (fun _ => nextMessages) st in
    let st := setInput "" st in
    if isEscalate (lastIntentRef st) && test affirmativePattern trimmed then
      let st := streamModelReply messages0 (applyTone (ticketReply e) trimmed) st in
      let st := setSuggestions ["Add more details"; "Update my email"; "Anything else?"] st in
      setLoading false st
    else
      let intent := detectIntent trimmed in
      let st := setLastIntent intent st in
      match runToolForIntent intent e with
      | Some toolResult =>
          let replyWithTone :=
            applyTone (title toolResult +++ ":" +++ newline +++ body toolResult) trimmed in
          let st := streamModelReply messages0 replyWithTone st in
          let st := setSuggestions (suggestionsFor intent) st in
          setLoading false st
      | None =>
          let prompt :=
            join (newline +++ newline) (SUPPORT_SYSTEM_PROMPT :: map labelled nextMessages) in
          setAwaiting (Some {| historyText := prompt; callTrimmed := trimmed;
                               callMessages := messages0 |}) st
      end.

(** The outcome of [model.generateContent]: the text of the response, or
    a rejection. *)
Inductive Outcome : Type := Resolved (text : string) | Rejected.

(** The rest of [handleSend] once the external call has settled: the
    streamed reply, or the [catch] block, and in both cases [finally]. *)
Definition resume (o : Outcome) (st : AppState) : AppState :=
  match awaiting st with
  | None => st
  | Some call =>
      let st := setAwaiting None st in
      let st :=
        match o with
        | Resolved text =>
            let reply := applyTone text (callTrimmed call) in
            let st := streamModelReply (callMessages call) reply st in
            setSuggestions ["Track an order"; "Returns & refunds"; "Talk to a human"] st
        | Rejected => setMessages (fun prev => prev ++ [apology]) st
        end in
      setLoading false st
  end.

(** The timer at position [n] fires. *)
Definition tick (n : nat) (st : AppState) : AppState :=
  match nth_error (timers st) n with
  | None => st
  | Some s => step s (setTimers (firstn n (timers st) ++ skipn (S n) (timers st)) st)
  end.

(** What can happen to the component. *)
Inductive Event : Type :=
| Typed (v : string)          (* onChange, or a click on a suggestion *)
| Send (e : Env)              (* the Send button, or Enter *)
| Settled (o : Outcome)       (* the external model answers or fails *)
| Tick (n : nat).             (* a scheduled step runs *)

Definition react (ev : Event) (st : AppState) : AppState :=
  match ev with
  | Typed v => setInput v st
  | Send e => handleSend e st
  | Settled o => resume o st
  | Tick n => tick n st
  end.

Definition run (evs : list Event) (st : AppState) : AppState :=
  fold_left (fun s ev => react ev s) evs st.

Inductive reachable : AppState -> Prop :=
| reach_initial : reachable initial
| reach_react ev st : reachable st -> reachable (react ev st).

Definition env0 (bits : list bool) : Env :=
  {| rand := bits; now := 0%N; toDateString := fun _ => "Thu Jan 01 1970" |}.

(** ** The Send button *)

(** [disabled={loading || !input.trim()}]. *)
Definition sendDisabled (st : AppState) : bool :=
  loading st || String.eqb (trim (input st)) "".

(** ** Vocabulary of the statements *)

(** The character before the position reached after reading [xs]. *)
Definition after (prev : option ascii) (xs : list ascii) : option ascii :=
  fold_left (fun _ x => Some x) xs prev.

(** What it means for a pattern to match at a position, as a property of
    the ways it can end: [sem icase r prev s c K] holds when [r] can
    match a prefix of [s] and end in a position that satisfies [K]. *)
Fixpoint sem (icase : bool) (r : regex) (prev : option ascii) (s : list ascii)
    (c : caps) (K : option ascii -> list ascii -> caps -> Prop) : Prop :=
  match r with
  | Empty => K prev s c
  | Chr cs =>
      exists x s', s = x :: s' /\ in_cset icase cs x = true /\ K (Some x) s' c
  | Seq r1 r2 => sem icase r1 prev s c (fun p' s' c' => sem icase r2 p' s' c' K)
  | Alt r1 r2 => sem icase r1 prev s c K \/ sem icase r2 prev s c K
  | Rep cs min =>
      exists xs s', s = xs ++ s' /\ min <= List.length xs /\
        forallb (in_cset icase cs) xs = true /\ K (after prev xs) s' c
  | Group n r1 =>
      sem icase r1 prev s c (fun p' s' c' => K p' s' ((n, taken s s') :: c'))
  | Bol => prev = None /\ K prev s c
  | WordB =>
      xorb (isWordOpt prev) (isWordOpt (hd_error s)) = true /\ K prev s c
  end.

(** [w] occurs in [t]. *)
Definition occurs (w t : string) : Prop :=
  exists pre post, t = pre +++ w +++ post.

Definition occursAny (ws : list string) (t : string) : Prop :=
  exists w, In w ws /\ occurs w t.

(** The status body of the order-status tool for an order and a status. *)
Definition statusBody (orderId status : string) : string :=
  "Order " +++ orderId +++ " is currently: " +++ status
  +++ ". If this seems wrong, I can escalate to a human.".

Definition lastChar (s : string) : option ascii := after None (chars s).
Definition firstChar (s : string) : option ascii := hd_error (chars s).

(** [z], between [pre] and [post], is a standalone run of five digits:
    neither preceded nor followed by a word character. *)
Definition standalone5 (pre z post : string) : Prop :=
  String.length z = 5 /\ forallb isDigit (chars z) = true /\
  isWordOpt (lastChar pre) = false /\ isWordOpt (firstChar post) = false.

(** Position [n] of the transcript holds a message of the user. *)
Definition userAt (n : nat) (l : list ChatMessage) : Prop :=
  exists m, nth_error l n = Some m /\ role m = user.

(** What holds of the component after every event: each scheduled step
    aims at a message of the user, and a turn that waits for the external
    model keeps the component loading, with the transcript its handler
    saw followed by the user's message. *)
Definition aimsAtUser (st : AppState) : Prop :=
  (forall s, In s (timers st) -> userAt (startIndex s) (messages st)) /\
  (forall call, awaiting st = Some call ->
     loading st = true /\
     exists u, messages st = callMessages call ++ [ {| role := user; content := u |} ]).

(** The timer that a step leaves behind, if any. *)
Definition successor (s : Stream) : list Stream :=
  let i' := i s + increment (fullText s) in
  if i' <=? String.length (fullText s)
  then [ {| startIndex := startIndex s; fullText := fullText s; i := i' |} ]
  else [].

(** The component after the user has asked for a human and the
    escalation offer has been made. *)
Definition pendingOffer : AppState :=
  run [Typed "talk to a human"; Send (env0 [])] initial.

(** The component after the user has greeted it: the turn waits for the
    external model. *)
Definition waiting : AppState :=
  run [Typed "hello there"; Send (env0 [])] initial.

(** The model messages that the transcript can hold. *)
Definition blankOrApology (m : ChatMessage) : Prop :=
  role m = model -> content m = "" \/ m = apology.

(** *** Vocabulary of the further properties *)

Definition isSpaceOpt (o : option ascii) : bool :=
  match o with Some c => isSpace c | None => false end.

(** A text that is not empty and neither starts nor ends with a space
    character. *)
Definition tidy (s : string) : Prop :=
  s <> "" /\ isSpaceOpt (firstChar s) = false /\ isSpaceOpt (lastChar s) = false.

Definition userTidy (m : ChatMessage) : Prop := role m = user -> tidy (content m).

Definition sameRole (a b : Role) : bool :=
  match a, b with
  | user, user | model, model => true
  | _, _ => false
  end.

(** No two neighbours in the transcript have the same role. *)
Fixpoint alternating (l : list ChatMessage) : bool :=
  match l with
  | m1 :: l' =>
      match l' with
      | m2 :: _ => negb (sameRole (role m1) (role m2)) && alternating l'
      | [] => true
      end
  | [] => true
  end.

Definition lastRole (l : list ChatMessage) : option Role :=
  option_map role (hd_error (rev l)).

(** A suggestion bar of three prompts, none of them blank. *)
Definition chips (l : list string) : bool :=
  (List.length l =? 3) && forallb (fun s => negb (String.eqb (trim s) "")) l.

(** The steps that a scheduled step can still be followed by, itself
    included, and their total over the timers. *)
Definition remaining (s : Stream) : nat := S (String.length (fullText s) - i s).

Definition pending (st : AppState) : nat := list_sum (map remaining (timers st)).

(** The characters of an extracted order id: [a-z0-9-]. *)
Definition idChar (c : ascii) : bool := isLower c || isDigit c || Ascii.eqb c "-".

Definition orderIdOf (x : Intent) : option string :=
  match x with
  | order_status orderId => orderId
  | shipping_eta orderId _ => orderId
  | _ => None
  end.

(** The characters of a ticket identifier: [0-9A-Z]. *)
Definition ticketChar (c : ascii) : bool := isDigit c || isUpper c.

Definition isAscii (c : ascii) : bool := nat_of_ascii c <? 128.

(** The two openers of [applyTone]. *)
Definition empathy : string := "I’m really sorry for the trouble. ".
Definition cheer : string := "Happy to hear that! ".

(** The digits of radix 36. *)
Definition base36 (c : ascii) : bool := isDigit c || isLower c.

(** [printed.slice(2, 8).toUpperCase()], the identifier cut from what the
    host prints for the random value. *)
Definition ticketOf (printed : string) : string :=
  toUpperCase (slice 2 8 printed).

(** The double 0.6, that is 5404319552844595 / 2^53. *)
Definition sixTenths : random :=
  [true; false; false; true; true; false; false; true; true; false; false;
   true; true; false; false; true; true; false; false; true; true; false;
   false; true; true; false; false; true; true; false; false; true; true;
   false; false; true; true; false; false; true; true; false; false; true;
   true; false; false; true; true; false; false; true; true].

(** What the hooks look like after every event: loading exactly while a
    turn waits for the external model, three non-blank suggestions, a
    transcript of alternating roles that ends with the user exactly
    while a turn waits, and tidy messages of the user. *)
Definition shape (st : AppState) : Prop :=
  loading st = (match awaiting st with Some _ => true | None => false end) /\
  chips (suggestions st) = true /\
  alternating (messages st) = true /\
  lastRole (messages st)
  = Some (match awaiting st with Some _ => user | None => model end) /\
  Forall userTidy (messages st).

(** ** Facts about the matcher *)

Section MatcherFacts.

Variable R : Type.

Lemma after_app prev xs ys : after prev (xs ++ ys) = after (after prev xs) ys.
Proof. unfold after. apply fold_left_app. Qed.

Lemma taken_app (xs s' : list ascii) : taken (xs ++ s') s' = xs.
Proof.
  unfold taken. rewrite length_app.
  replace (List.length xs + List.length s' - List.length s') with (List.length xs + 0) by lia.
  rewrite firstn_app_2. simpl. apply app_nil_r.
Qed.

Lemma rep_sound p :
  forall s min prev (k : option ascii -> list ascii -> option R) x,
    rep p min prev s k = Some x ->
    exists xs s', s = xs ++ s' /\ min <= List.length xs /\
      forallb p xs = true /\ k (after prev xs) s' = Some x.
Proof.
  induction s as [|a s IH]; intros min prev k x H; simpl in H.
  - destruct (Nat.eqb_spec min 0) as [->|]; [|discriminate].
    exists [], []. auto.
  - assert (Hstop : (if min =? 0 then k prev (a :: s) else None) = Some x ->
                    exists xs s', a :: s = xs ++ s' /\ min <= List.length xs /\
                      forallb p xs = true /\ k (after prev xs) s' = Some x).
    { destruct (Nat.eqb_spec min 0) as [->|]; [|discriminate].
      intros Hk. exists [], (a :: s). auto. }
    destruct (p a) eqn:Hp; [|auto].
    destruct (rep p (pred min) (Some a) s k) eqn:Hr; [|auto].
    injection H as ->.
    destruct (IH _ _ _ _ Hr) as (xs & s' & -> & Hlen & Hall & Hk).
    exists (a :: xs), s'. simpl. rewrite Hp. repeat split; auto. lia.
Qed.

Lemma rep_complete p (k : option ascii -> list ascii -> option R) :
  forall xs s' min prev,
    min <= List.length xs -> forallb p xs = true ->
    k (after prev xs) s' <> None ->
    rep p min prev (xs ++ s') k <> None.
Proof.
  induction xs as [|a xs IH]; intros s' min prev Hlen Hall Hk.
  - simpl in Hlen. assert (min = 0) as -> by lia. simpl in *.
    destruct s' as [|b s']; simpl; auto.
    destruct (p b); auto.
    destruct (rep p 0 (Some b) s' k); auto. discriminate.
  - simpl in Hall. apply andb_true_iff in Hall as [Hp Hall].
    simpl. rewrite Hp.
    specialize (IH s' (pred min) (Some a)).
    destruct (rep p (pred min) (Some a) (xs ++ s') k).
    + discriminate.
    + exfalso. apply IH; auto. simpl in Hlen. lia.
Qed.

Lemma sem_mono icase r :
  forall prev s c (K K' : option ascii -> list ascii -> caps -> Prop),
    (forall p' s' c', K p' s' c' -> K' p' s' c') ->
    sem icase r prev s c K -> sem icase r prev s c K'.
Proof.
  induction r; simpl; intros prev s c K K' HK H.
  - auto.
  - destruct H as (x & s' & ? & ? & ?). eauto 6.
  - eapply IHr1; [|exact H]. intros. eapply IHr2; eauto.
  - destruct H; [left|right]; eauto.
  - destruct H as (xs & s' & ? & ? & ? & ?). eauto 8.
  - eapply IHr; [|exact H]. simpl. auto.
  - destruct H; auto.
  - destruct H; auto.
Qed.

(** Whatever the matcher returns is the result of its continuation at an
    end position of the pattern. *)
Lemma rmatch_sound icase r :
  forall prev s c (k : cont R) x,
    rmatch icase r prev s c k = Some x ->
    sem icase r prev s c (fun p' s' c' => k p' s' c' = Some x).
Proof.
  induction r; simpl; intros prev s c k x H.
  - exact H.
  - destruct s as [|a s]; [discriminate|].
    destruct (in_cset icase cs a) eqn:Hc; [|discriminate]. eauto 6.
  - apply IHr1 in H. eapply sem_mono; [|exact H]. simpl. intros. auto.
  - destruct (rmatch icase r1 prev s c k) eqn:H1.
    + injection H as ->. left. auto.
    + right. auto.
  - apply rep_sound in H. exact H.
  - apply IHr in H. exact H.
  - destruct prev; [discriminate|]. auto.
  - destruct (xorb (isWordOpt prev) (isWordOpt (hd_error s))); [auto|discriminate].
Qed.

(** The matcher finds a match whenever the pattern has an end position
    that its continuation accepts. *)
Lemma rmatch_complete icase r :
  forall prev s c (k : cont R),
    sem icase r prev s c (fun p' s' c' => k p' s' c' <> None) ->
    rmatch icase r prev s c k <> None.
Proof.
  induction r; simpl; intros prev s c k H.
  - exact H.
  - destruct H as (x & s' & -> & Hc & Hk). rewrite Hc. exact Hk.
  - apply IHr1. eapply sem_mono; [|exact H]. simpl. intros. auto.
  - destruct (rmatch icase r1 prev s c k) eqn:H1; [discriminate|].
    destruct H as [H|H]; [|auto].
    exfalso. apply IHr1 in H. auto.
  - destruct H as (xs & s' & -> & Hlen & Hall & Hk).
    apply rep_complete; auto.
  - apply IHr. exact H.
  - destruct H as [-> H]. exact H.
  - destruct H as [-> H]. exact H.
Qed.

End MatcherFacts.

(** ** Strings as lists of characters *)

Lemma chars_text l : chars (text l) = l.
Proof. apply list_ascii_of_string_of_list_ascii. Qed.

Lemma text_chars s : text (chars s) = s.
Proof. apply string_of_list_ascii_of_string. Qed.

Lemma chars_append a b : chars (a +++ b) = chars a ++ chars b.
Proof. induction a as [|x a IH]; simpl; [reflexivity|]. f_equal. exact IH. Qed.

Lemma text_app a b : text (a ++ b) = text a +++ text b.
Proof. induction a as [|x a IH]; simpl; [reflexivity|]. f_equal. exact IH. Qed.

Lemma chars_inj a b : chars a = chars b -> a = b.
Proof. intros H. rewrite <- (text_chars a), <- (text_chars b). f_equal. exact H. Qed.

Lemma length_chars s : List.length (chars s) = String.length s.
Proof. induction s as [|x s IH]; simpl; [reflexivity|]. f_equal. exact IH. Qed.

(** ** Facts about the search *)

Lemma attempt_sound icase r prev s c :
  attempt icase r prev s = Some c ->
  sem icase r prev s [] (fun _ _ c' => c' = c).
Proof.
  intros H. apply rmatch_sound in H.
  eapply sem_mono; [|exact H]. simpl. intros p' s' c' E. congruence.
Qed.

Lemma attempt_complete icase r prev s :
  sem icase r prev s [] (fun _ _ _ => True) ->
  attempt icase r prev s <> None.
Proof.
  intros H. apply rmatch_complete.
  eapply sem_mono; [|exact H]. simpl. intros. discriminate.
Qed.

Lemma search_none icase r :
  forall s prev, search icase r prev s = None ->
    forall pre post, s = pre ++ post -> attempt icase r (after prev pre) post = None.
Proof.
  induction s as [|a s IH]; intros prev H pre post E; simpl in H.
  - destruct (attempt icase r prev []) eqn:Ha; [discriminate|].
    destruct pre; [|discriminate]. simpl in E. subst post. exact Ha.
  - destruct (attempt icase r prev (a :: s)) eqn:Ha; [discriminate|].
    destruct pre as [|b pre]; simpl in E.
    + subst post. exact Ha.
    + injection E as <- ->.
      change (after prev (a :: pre)) with (after (Some a) pre).
      eapply IH; [exact H|reflexivity].
Qed.

Lemma search_some icase r :
  forall s prev c, search icase r prev s = Some c ->
    exists pre post, s = pre ++ post /\
      attempt icase r (after prev pre) post = Some c /\
      forall pre' post', s = pre' ++ post' ->
        List.length pre' < List.length pre ->
        attempt icase r (after prev pre') post' = None.
Proof.
  induction s as [|a s IH]; intros prev c H; simpl in H.
  - destruct (attempt icase r prev []) eqn:Ha; [|discriminate].
    injection H as ->. exists [], []. repeat split; auto.
    simpl. intros. lia.
  - destruct (attempt icase r prev (a :: s)) eqn:Ha.
    + injection H as ->. exists [], (a :: s). repeat split; auto.
      simpl. intros. lia.
    + destruct (IH _ _ H) as (pre & post & -> & Hm & Hmin).
      exists (a :: pre), post. repeat split; auto.
      intros [|b pre'] post' E Hlen; simpl in E.
      * subst post'. exact Ha.
      * injection E as <- E. simpl in Hlen.
        change (after prev (a :: pre')) with (after (Some a) pre').
        apply Hmin; [exact E|lia].
Qed.

Lemma search_found icase r :
  forall pre post prev,
    attempt icase r (after prev pre) post <> None ->
    search icase r prev (pre ++ post) <> None.
Proof.
  intros pre post prev H Hs. apply H.
  eapply search_none; [exact Hs|reflexivity].
Qed.

(** [test] succeeds exactly when the pattern matches at some position. *)
Lemma test_true_iff p t :
  test p t = true <->
  exists pre post, chars t = pre ++ post /\
    sem (ignoreCase p) (source p) (after None pre) post [] (fun _ _ _ => True).
Proof.
  unfold test, exec. split.
  - destruct (search _ _ _ _) eqn:H; [|discriminate]. intros _.
    destruct (search_some _ _ _ _ _ H) as (pre & post & E & Hm & _).
    exists pre, post. split; [exact E|].
    apply attempt_sound in Hm. eapply sem_mono; [|exact Hm]. simpl. auto.
  - intros (pre & post & E & Hm). rewrite E.
    apply attempt_complete in Hm.
    apply (search_found _ _ pre post None) in Hm.
    destruct (search _ _ _ _); [reflexivity|contradiction].
Qed.

(** ** Literal words and alternations of words *)

Lemma in_cset_char x c : in_cset false (CChar x) c = true <-> c = x.
Proof.
  simpl. rewrite Ascii.eqb_eq. split; congruence.
Qed.

Lemma sem_lit_chars w :
  forall prev s c K,
    sem false (lit_chars w) prev s c K <->
    exists s', s = w ++ s' /\ K (after prev w) s' c.
Proof.
  induction w as [|a w IH]; intros prev s c K; simpl.
  - split.
    + intros H. exists s. auto.
    + intros (s' & -> & H). exact H.
  - split.
    + intros (x & s' & -> & Hx & H). rewrite Ascii.eqb_eq in Hx. subst x.
      apply IH in H. destruct H as (s'' & -> & H). exists s''. auto.
    + intros (s' & -> & H). exists a, (w ++ s'). repeat split.
      * apply Ascii.eqb_refl.
      * apply IH. exists s'. auto.
Qed.

Lemma sem_words icase ws :
  ws <> [] ->
  forall prev s c K,
    sem icase (words ws) prev s c K <->
    exists w, In w ws /\ sem icase (lit w) prev s c K.
Proof.
  induction ws as [|w ws IH]; [congruence|]. intros _ prev s c K.
  destruct ws as [|w' ws].
  - simpl. split.
    + intros H. exists w. auto.
    + intros (w0 & [<-|[]] & H). exact H.
  - change (words (w :: w' :: ws)) with (Alt (lit w) (words (w' :: ws))).
    simpl sem. rewrite IH by discriminate. split.
    + intros [H|(w0 & Hin & H)].
      * exists w. split; [left; reflexivity|exact H].
      * exists w0. split; [right; exact Hin|exact H].
    + intros (w0 & [<-|Hin] & H); [left; exact H|].
      right. exists w0. auto.
Qed.

(** A pattern [/(w1|...|wn)/] tests for the occurrence of one of its
    words. *)
Lemma test_words ws t :
  ws <> [] ->
  test (Pattern (Group 1 (words ws)) false) t = true <-> occursAny ws t.
Proof.
  intros Hne. rewrite test_true_iff. simpl. split.
  - intros (pre & post & E & H).
    apply (sem_words false _ Hne) in H. destruct H as (w & Hin & H).
    apply sem_lit_chars in H. destruct H as (s' & -> & _).
    exists w. split; [exact Hin|]. exists (text pre), (text s').
    apply chars_inj. rewrite !chars_append, !chars_text. exact E.
  - intros (w & Hin & pre & post & ->).
    exists (chars pre), (chars (w +++ post)). split.
    + apply chars_append.
    + apply (sem_words false _ Hne). exists w. split; [exact Hin|].
      apply sem_lit_chars. exists (chars post). split; [apply chars_append|exact I].
Qed.

(** ** The classifier: priority and extraction *)

(** C5. A text whose lower-cased form matches both the order-status
    trigger and the shipping-ETA trigger is classified as [order_status],
    never as [shipping_eta]: the rules are tried in order and the first
    match wins. *)
Theorem detectIntent_priority (text : string) :
  test orderStatusPattern (toLowerCase text) = true ->
  test shippingEtaPattern (toLowerCase text) = true ->
  detectIntent text = order_status (group 1 idPattern (toLowerCase text)) /\
  forall orderId postalCode, detectIntent text <> shipping_eta orderId postalCode.
Proof.
  intros H1 _. unfold detectIntent. rewrite H1. split; [reflexivity|discriminate].
Qed.

Lemma detectIntent_priority_witness :
  test orderStatusPattern (toLowerCase "Where and when is my order?") = true /\
  test shippingEtaPattern (toLowerCase "Where and when is my order?") = true /\
  detectIntent "Where and when is my order?" = order_status None.
Proof.
  split; [reflexivity|]. split; [reflexivity|].
  exact (proj1 (detectIntent_priority "Where and when is my order?" eq_refl eq_refl)).
Defined.

(** C6. [detectIntent "Where is my order #ORD-99021?"] is [order_status]
    and its [orderId] is the text captured by the order-id pattern in the
    lower-cased input.  The pattern reads [ord] as the marker, so the
    captured text is ["-99021"]. *)
Theorem detectIntent_order_example :
  exists orderId,
    detectIntent "Where is my order #ORD-99021?" = order_status (Some orderId) /\
    (orderId = "ORD-99021" \/
     group 1 idPattern (toLowerCase "Where is my order #ORD-99021?") = Some orderId) /\
    orderId = "-99021".
Proof.
  exists "-99021". split; [reflexivity|]. split; [right; reflexivity|reflexivity].
Qed.

(** ** The random source *)

Lemma numerator_bound bits :
  forall acc, (numerator bits acc < (acc + 1) * 2 ^ N.of_nat (List.length bits))%N.
Proof.
  induction bits as [|b bits IH]; intros acc.
  - simpl. lia.
  - cbn [numerator List.length]. rewrite Nat2N.inj_succ, N.pow_succ_r'.
    specialize (IH (2 * acc + (if b then 1 else 0))%N).
    destruct b; nia.
Qed.

Lemma num_lt_den r : (num r < den r)%N.
Proof.
  unfold num, den. pose proof (numerator_bound (bits53 r) 0). lia.
Qed.

Lemma den_le r : (den r <= 2 ^ 53)%N.
Proof.
  unfold den, bits53. apply N.pow_le_mono_r; [lia|].
  pose proof (firstn_le_length 53 r). lia.
Qed.

(** Rounding moves a number up by at most half a unit of its last kept
    bit. *)
Lemma roundDouble_le m :
  (roundDouble m <= m + (if N.size m <=? 53 then 0 else 2 ^ (N.size m - 54)))%N.
Proof.
  unfold roundDouble. destruct (N.leb_spec (N.size m) 53) as [H|H]; [lia|].
  set (sh := (N.size m - 53)%N).
  assert (Hsh : (2 ^ sh = 2 * 2 ^ (sh - 1))%N).
  { rewrite <- N.pow_succ_r'. f_equal. lia. }
  replace (N.size m - 54)%N with (sh - 1)%N by lia.
  assert (Hp : (0 < 2 ^ (sh - 1))%N) by (apply N.neq_0_lt_0, N.pow_nonzero; lia).
  pose proof (N.Div0.div_mod m (2 ^ sh)) as Hdm.
  pose proof (N.mod_lt m (2 ^ sh)) as Hlt.
  set (q := (m / 2 ^ sh)%N) in *. set (rest := (m mod 2 ^ sh)%N) in *.
  cbv zeta.
  destruct (N.ltb_spec (2 ^ (sh - 1)) rest) as [H1|H1]; cbn [orb].
  - nia.
  - destruct (N.eqb_spec rest (2 ^ (sh - 1))) as [H2|H2]; cbn [andb]; [|nia].
    destruct (N.odd q); nia.
Qed.

Lemma floorTimes_lt k r : (0 < k)%N -> floorTimes k r < N.to_nat k.
Proof.
  intros Hk. unfold floorTimes.
  pose proof (num_lt_den r) as H. pose proof (den_le r) as Hd.
  pose proof (roundDouble_le (k * num r)) as Hr.
  assert (Hlt : (roundDouble (k * num r) < den r * k)%N).
  { destruct (N.leb_spec (N.size (k * num r)) 53) as [Hs|Hs]; [nia|].
    assert (Hm : (k * num r <> 0)%N) by (intros E; rewrite E in Hs; simpl in Hs; lia).
    rewrite N.size_log2 in * by exact Hm.
    destruct (N.log2_spec (k * num r)) as [Hlo _]; [lia|].
    set (l := N.log2 (k * num r)) in *.
    replace (N.succ l - 54)%N with (l - 53)%N in Hr by lia.
    assert (Hl : (2 ^ l = 2 ^ (l - 53) * 2 ^ 53)%N).
    { rewrite <- N.pow_add_r. f_equal. lia. }
    assert (Hp : (0 < 2 ^ (l - 53))%N) by (apply N.neq_0_lt_0, N.pow_nonzero; lia).
    nia. }
  assert ((roundDouble (k * num r) / den r < k)%N)
    by (apply N.Div0.div_lt_upper_bound; exact Hlt).
  lia.
Qed.

(** The digits of a binary fraction in radix 36 end: once the remainder
    is zero, more fuel adds nothing. *)
Lemma fraction36_fuel d :
  (0 < d)%N ->
  forall j n f1 f2,
    ((4 ^ N.of_nat j * n) mod d = 0)%N -> (n < d)%N -> j <= f1 -> j <= f2 ->
    fraction36 f1 n d = fraction36 f2 n d.
Proof.
  intros Hd. induction j as [|j IH]; intros n f1 f2 Hj Hn H1 H2.
  - change (4 ^ N.of_nat 0)%N with 1%N in Hj.
    rewrite N.mul_1_l, N.mod_small in Hj by exact Hn. subst n.
    destruct f1, f2; reflexivity.
  - destruct f1 as [|f1]; [lia|]. destruct f2 as [|f2]; [lia|].
    cbn [fraction36]. destruct (n =? 0)%N; [reflexivity|]. f_equal.
    apply IH; try lia.
    + rewrite N.Div0.mul_mod_idemp_r.
      replace (4 ^ N.of_nat j * (36 * n))%N with (9 * (4 ^ N.of_nat (S j) * n))%N.
      * rewrite N.Div0.mul_mod, Hj, N.mul_0_r. apply N.Div0.mod_0_l.
      * rewrite Nat2N.inj_succ, N.pow_succ_r'. lia.
    + apply N.mod_lt. lia.
Qed.

(** The fuel of [toString36] is enough: more fuel gives the same digits. *)
Lemma toString36_fuel r k :
  fraction36 (List.length r + k) (num r) (den r)
  = fraction36 (List.length r) (num r) (den r).
Proof.
  assert (Hd : (0 < den r)%N) by (pose proof (num_lt_den r); lia).
  assert (Hl : List.length (bits53 r) <= List.length r).
  { unfold bits53. rewrite length_firstn. lia. }
  apply (fraction36_fuel (den r) Hd (List.length (bits53 r))); try lia.
  - unfold den.
    replace (4 ^ N.of_nat (List.length (bits53 r)))%N
      with (2 ^ N.of_nat (List.length (bits53 r))
            * 2 ^ N.of_nat (List.length (bits53 r)))%N.
    + rewrite <- N.mul_assoc, N.mul_comm. apply N.Div0.mod_mul.
    + rewrite <- N.pow_mul_l. reflexivity.
  - apply num_lt_den.
Qed.

(** ** The order-status tool *)

(** The two branches of the tool, on the guard [!orderId]: a falsy
    argument gets the clarifying question, which is never a status body,
    whatever the random value; any other gets a body that names the
    order id and a status of the fixed list. *)
Lemma toolOrderStatus_result (orderId : option string) (e : Env) :
  match orderId with
  | None | Some EmptyString =>
      toolOrderStatus orderId e = {| title := "Order status"; body := askOrderId |} /\
      forall id status, body (toolOrderStatus orderId e) <> statusBody id status
  | Some id =>
      exists status,
        In status statusList /\
        toolOrderStatus orderId e =
          {| title := "Order status"; body := statusBody id status |}
  end.
Proof.
  destruct orderId as [[|a id]|].
  - split; [reflexivity|]. intros id status. discriminate.
  - unfold toolOrderStatus. cbn [falsy String.eqb str].
    pose proof (floorTimes_lt 5 (rand e) eq_refl) as Hlt.
    change (N.of_nat (List.length statusList)) with 5%N.
    destruct (nth_error statusList (floorTimes 5 (rand e))) as [status|] eqn:Hn.
    + exists status. split; [eapply nth_error_In; exact Hn|reflexivity].
    + apply nth_error_None in Hn. simpl in Hn, Hlt. lia.
  - split; [reflexivity|]. intros id status. discriminate.
Qed.

(** ** Sentiment *)

(** C8. On the lower-cased text, [analyzeSentiment] is [negative] exactly
    when a negative term occurs and no positive term does, [positive]
    exactly when a positive term occurs and no negative term does, and
    [neutral] exactly when both kinds or neither occur. *)
Theorem analyzeSentiment_policy (text : string) :
  let t := toLowerCase text in
  let neg := occursAny negativeTerms t in
  let pos := occursAny positiveTerms t in
  (analyzeSentiment text = negative <-> neg /\ ~ pos) /\
  (analyzeSentiment text = positive <-> pos /\ ~ neg) /\
  (analyzeSentiment text = neutral <-> (neg /\ pos) \/ (~ neg /\ ~ pos)).
Proof.
  intros t neg pos.
  assert (Hn : test negPattern t = true <-> neg)
    by (apply test_words; discriminate).
  assert (Hp : test posPattern t = true <-> pos)
    by (apply test_words; discriminate).
  unfold analyzeSentiment. fold t.
  destruct (test negPattern t), (test posPattern t); simpl;
    repeat split; intros; intuition (try discriminate; try congruence).
Qed.

(** ** The postal-code pattern *)

Lemma isDigit_isWord c : isDigit c = true -> isWord c = true.
Proof.
  intros H. unfold isWord. rewrite H.
  destruct (isUpper c), (isLower c); reflexivity.
Qed.

Lemma xorb_word_l a x : xorb a (isWord x) = true -> isDigit x = true -> a = false.
Proof.
  intros H D. rewrite (isDigit_isWord _ D) in H. destruct a; [discriminate|reflexivity].
Qed.

Lemma xorb_word_r x b : xorb (isWord x) b = true -> isDigit x = true -> b = false.
Proof.
  intros H D. rewrite (isDigit_isWord _ D) in H. destruct b; [discriminate|reflexivity].
Qed.

(** A match of the postal-code pattern at a position captures five
    digits that stand alone there. *)
Lemma zip_attempt_sound prev s c :
  attempt false (source zipPattern) prev s = Some c ->
  exists z rest, s = z ++ rest /\ List.length z = 5 /\ forallb isDigit z = true /\
    isWordOpt prev = false /\ isWordOpt (hd_error rest) = false /\
    lookup 1 c = Some z.
Proof.
  intros H. apply attempt_sound in H. cbn [zipPattern source sem opt times] in H.
  destruct H as (Hb & x0 & s0 & -> & D0 & x1 & s1 & -> & D1 & x2 & s2 & -> & D2
                 & x3 & s3 & -> & D3 & x4 & s4 & -> & D4 & Hend).
  cbn [in_cset] in *.
  exists [x0; x1; x2; x3; x4], s4. split; [reflexivity|]. split; [reflexivity|].
  split; [simpl; rewrite D0, D1, D2, D3, D4; reflexivity|].
  split; [exact (xorb_word_l _ _ Hb D0)|].
  assert (Hc : forall c', [(1, taken (x0 :: x1 :: x2 :: x3 :: x4 :: s4) s4)] = c' ->
                          lookup 1 c' = Some [x0; x1; x2; x3; x4]).
  { intros c' <-. change (x0 :: x1 :: x2 :: x3 :: x4 :: s4)
      with ([x0; x1; x2; x3; x4] ++ s4). rewrite taken_app. reflexivity. }
  destruct Hend as [(x5 & s5 & -> & Hm & ? & ? & ? & ? & ? & ? & ? & ? & ? & ?
                     & ? & ? & ? & ? & ? & ? & ? & E)|(Hb' & E)].
  - apply Ascii.eqb_eq in Hm. subst x5. split; [reflexivity|auto].
  - split; [exact (xorb_word_r _ _ Hb' D4)|auto].
Qed.

(** Five digits that stand alone at a position are matched there. *)
Lemma zip_attempt_complete prev z rest :
  List.length z = 5 -> forallb isDigit z = true ->
  isWordOpt prev = false -> isWordOpt (hd_error rest) = false ->
  attempt false (source zipPattern) prev (z ++ rest) <> None.
Proof.
  intros Hlen Hd Hp Hr. apply attempt_complete.
  destruct z as [|x0 [|x1 [|x2 [|x3 [|x4 [|]]]]]]; try discriminate.
  simpl in Hd. repeat (apply andb_true_iff in Hd as [? Hd]).
  cbn [zipPattern source sem opt times in_cset app hd_error isWordOpt].
  split; [rewrite Hp, isDigit_isWord by assumption; reflexivity|].
  repeat (eexists; eexists; split; [reflexivity|]; split; [eassumption|]).
  right. split; [|exact I].
  rewrite Hr, isDigit_isWord by assumption. reflexivity.
Qed.

Lemma detectIntent_shipping text orderId postalCode :
  detectIntent text = shipping_eta orderId postalCode ->
  postalCode = group 1 zipPattern (toLowerCase text).
Proof.
  unfold detectIntent.
  repeat match goal with
         | |- context [if ?b then _ else _] => destruct b
         end; intros H; try discriminate.
  injection H as _ <-. reflexivity.
Qed.

(** C10. For an input classified as [shipping_eta], the extracted
    [postalCode] is the first run of five digits of the lower-cased text
    that stands alone (neither preceded nor followed by a word
    character), and it is absent exactly when there is no such run; the
    run may lie inside the order id: for an input whose only digits are
    those of [ORD-99021], the postal code is ["99021"]. *)
Theorem detectIntent_postalCode :
  (forall text orderId postalCode,
     detectIntent text = shipping_eta orderId postalCode ->
     let t := toLowerCase text in
     match postalCode with
     | Some z =>
         exists pre post,
           t = pre +++ z +++ post /\ standalone5 pre z post /\
           forall pre' z' post',
             t = pre' +++ z' +++ post' -> standalone5 pre' z' post' ->
             String.length pre <= String.length pre'
     | None =>
         forall pre z post, t = pre +++ z +++ post -> ~ standalone5 pre z post
     end) /\
  detectIntent "When will my package arrive? It is order ORD-99021"
    = shipping_eta (Some "ord-99021") (Some "99021").
Proof.
  split; [|reflexivity].
  intros text0 orderId postalCode H t.
  apply detectIntent_shipping in H. fold t in H. subst postalCode.
  unfold group, exec. cbn [ignoreCase zipPattern].
  change (Seq WordB _) with (source zipPattern).
  destruct (search false (source zipPattern) None (chars t)) as [c|] eqn:Hs.
  - destruct (search_some _ _ _ _ _ Hs) as (pre & post & E & Hm & Hmin).
    destruct (zip_attempt_sound _ _ _ Hm) as (z & rest & -> & Hlen & Hd & Hp & Hr & Hc).
    rewrite Hc. cbn [option_map].
    exists (text pre), (text rest). split; [|split].
    + apply chars_inj. rewrite !chars_append, !chars_text. exact E.
    + unfold standalone5, lastChar, firstChar. rewrite !chars_text.
      rewrite <- length_chars, chars_text. auto.
    + intros pre' z' post' E' (Hlen' & Hd' & Hp' & Hr').
      rewrite <- !length_chars, chars_text.
      destruct (Nat.le_gt_cases (List.length pre) (List.length (chars pre')))
        as [Hle|Hlt]; [exact Hle|exfalso].
      assert (E2 : chars t = chars pre' ++ (chars z' ++ chars post'))
        by (rewrite E', !chars_append; reflexivity).
      specialize (Hmin _ _ E2 Hlt).
      revert Hmin. apply zip_attempt_complete; auto.
      rewrite length_chars. exact Hlen'.
  - intros pre z post E (Hlen & Hd & Hp & Hr).
    assert (E2 : chars t = chars pre ++ (chars z ++ chars post))
      by (rewrite E, !chars_append; reflexivity).
    pose proof (search_none _ _ _ _ Hs _ _ E2) as Hn.
    revert Hn. apply zip_attempt_complete; auto.
    rewrite length_chars. exact Hlen.
Qed.

Lemma detectIntent_postalCode_witness :
  exists pre post,
    toLowerCase "When will my package arrive? It is order ORD-99021"
    = pre +++ "99021" +++ post /\ standalone5 pre "99021" post.
Proof.
  destruct (proj1 detectIntent_postalCode
              "When will my package arrive? It is order ORD-99021"
              (Some "ord-99021") (Some "99021") eq_refl)
    as (pre & post & E & H & _).
  exists pre, post. split; assumption.
Defined.

(** ** Streaming: every step aims at the user's message *)

Lemma userAt_app n l l' : userAt n l -> userAt n (l ++ l').
Proof.
  intros (m & Hn & Hr). exists m. split; [|exact Hr].
  rewrite nth_error_app1; [exact Hn|]. apply nth_error_Some. congruence.
Qed.

Lemma userAt_length l u l' :
  userAt (List.length l) (l ++ {| role := user; content := u |} :: l').
Proof.
  exists {| role := user; content := u |}. split; [|reflexivity].
  rewrite nth_error_app2, Nat.sub_diag by lia. reflexivity.
Qed.

(** A step whose index holds a message of the user changes nothing. *)
Lemma reveal_user n shown l : userAt n l -> reveal n shown l = l.
Proof.
  intros (m & Hn & Hr). unfold reveal.
  assert (n < List.length l) by (apply nth_error_Some; congruence).
  replace (Nat.min n (List.length l - 1)) with n by lia.
  rewrite Hn. unfold isModel. rewrite Hr. reflexivity.
Qed.

Lemma step_messages s st :
  userAt (startIndex s) (messages st) -> messages (step s st) = messages st.
Proof.
  intros H. unfold step.
  destruct (_ <=? _); cbn; apply reveal_user; exact H.
Qed.

Lemma step_timers s st : timers (step s st) = timers st ++ successor s.
Proof.
  unfold step, successor.
  destruct (_ <=? _); cbn; [reflexivity|]. symmetry. apply app_nil_r.
Qed.

Lemma step_awaiting s st : awaiting (step s st) = awaiting st.
Proof. unfold step. destruct (_ <=? _); reflexivity. Qed.

Lemma step_loading s st : loading (step s st) = loading st.
Proof. unfold step. destruct (_ <=? _); reflexivity. Qed.

Lemma step_lastIntentRef s st : lastIntentRef (step s st) = lastIntentRef st.
Proof. unfold step. destruct (_ <=? _); reflexivity. Qed.

Lemma successor_startIndex s s' : In s' (successor s) -> startIndex s' = startIndex s.
Proof.
  unfold successor. destruct (_ <=? _); simpl; [|tauto].
  intros [<-|[]]. reflexivity.
Qed.

(** From a handler whose render saw [messages0], after the user's message
    has been queued: the empty model message is appended, and the first
    step, which aims one position too low, leaves it empty. *)
Lemma streamModelReply_messages messages0 u fullText st :
  messages st = messages0 ++ [ {| role := user; content := u |} ] ->
  messages (streamModelReply messages0 fullText st)
  = messages0 ++ [ {| role := user; content := u |}; {| role := model; content := "" |} ].
Proof.
  intros H. unfold streamModelReply. rewrite step_messages; cbn; rewrite H.
  - rewrite <- app_assoc. reflexivity.
  - rewrite <- app_assoc. apply userAt_length.
Qed.

Lemma streamModelReply_timers messages0 fullText st :
  timers (streamModelReply messages0 fullText st)
  = timers st ++ successor {| startIndex := List.length messages0;
                              fullText := fullText; i := 0 |}.
Proof. unfold streamModelReply. rewrite step_timers. reflexivity. Qed.

Lemma streamModelReply_awaiting messages0 fullText st :
  awaiting (streamModelReply messages0 fullText st) = awaiting st.
Proof. unfold streamModelReply. rewrite step_awaiting. reflexivity. Qed.

Lemma streamModelReply_loading messages0 fullText st :
  loading (streamModelReply messages0 fullText st) = loading st.
Proof. unfold streamModelReply. rewrite step_loading. reflexivity. Qed.

Lemma streamModelReply_lastIntentRef messages0 fullText st :
  lastIntentRef (streamModelReply messages0 fullText st) = lastIntentRef st.
Proof. unfold streamModelReply. rewrite step_lastIntentRef. reflexivity. Qed.

Lemma streamModelReply_aims messages0 u fullText st :
  messages st = messages0 ++ [ {| role := user; content := u |} ] ->
  awaiting st = None ->
  (forall s, In s (timers st) -> userAt (startIndex s) (messages st)) ->
  aimsAtUser (streamModelReply messages0 fullText st).
Proof.
  intros Hm Ha Ht. split.
  - intros s. rewrite streamModelReply_timers, (streamModelReply_messages _ _ _ _ Hm).
    intros Hin. apply in_app_or in Hin as [Hin|Hin].
    + replace (messages0 ++ [_; _])
        with (messages st ++ [ {| role := model; content := "" |} ])
        by (rewrite Hm, <- app_assoc; reflexivity).
      apply userAt_app. auto.
    + rewrite (successor_startIndex _ _ Hin). apply userAt_length.
  - intros call. rewrite streamModelReply_awaiting, Ha. discriminate.
Qed.

(** ** The invariant of the component *)

Lemma handleSend_aims e st : aimsAtUser st -> aimsAtUser (handleSend e st).
Proof.
  intros [Ht Ha]. unfold handleSend.
  destruct (String.eqb (trim (input st)) "" || loading st) eqn:Hg; [split; assumption|].
  apply orb_false_iff in Hg as [_ Hl].
  assert (Hn : awaiting st = None).
  { destruct (awaiting st) as [call|] eqn:E; [|reflexivity].
    destruct (Ha call eq_refl) as [Hl' _]. congruence. }
  assert (Ht' : forall s, In s (timers st) ->
                  userAt (startIndex s)
                    (messages st ++ [ {| role := user; content := trim (input st) |} ])).
  { intros s Hin. apply userAt_app. auto. }
  cbn [lastIntentRef setInput setMessages setLoading].
  destruct (isEscalate (lastIntentRef st) && test affirmativePattern (trim (input st))).
  - destruct (streamModelReply_aims (messages st) (trim (input st))
                (applyTone (ticketReply e) (trim (input st)))
                (setInput "" (setMessages
                   (fun _ => messages st ++ [ {| role := user; content := trim (input st) |} ])
                   (setLoading true st)))) as [H1 H2]; auto.
    split; [exact H1|].
    intros call. cbn. rewrite streamModelReply_awaiting. cbn. rewrite Hn. discriminate.
  - destruct (runToolForIntent (detectIntent (trim (input st))) e) as [toolResult|].
    + destruct (streamModelReply_aims (messages st) (trim (input st))
                  (applyTone (title toolResult +++ ":" +++ newline +++ body toolResult)
                             (trim (input st)))
                  (setLastIntent (detectIntent (trim (input st)))
                    (setInput "" (setMessages
                      (fun _ => messages st ++ [ {| role := user; content := trim (input st) |} ])
                      (setLoading true st))))) as [H1 H2]; auto.
      split; [exact H1|].
      intros call. cbn. rewrite streamModelReply_awaiting. cbn. rewrite Hn. discriminate.
    + split; cbn.
      * exact Ht'.
      * intros call E. injection E as <-. cbn. eauto.
Qed.

Lemma resume_aims o st : aimsAtUser st -> aimsAtUser (resume o st).
Proof.
  intros [Ht Ha]. unfold resume.
  destruct (awaiting st) as [call|] eqn:E; [|split; [exact Ht|rewrite E; discriminate]].
  destruct (Ha call eq_refl) as [_ [u Hm]].
  destruct o as [reply|].
  - destruct (streamModelReply_aims (callMessages call) u
                (applyTone reply (callTrimmed call)) (setAwaiting None st))
      as [H1 H2]; auto.
    split; [exact H1|].
    intros c. cbn. rewrite streamModelReply_awaiting. cbn. discriminate.
  - split; cbn.
    + intros s Hin. apply userAt_app. auto.
    + discriminate.
Qed.

Lemma tick_messages n st : aimsAtUser st -> messages (tick n st) = messages st.
Proof.
  intros [Ht _]. unfold tick.
  destruct (nth_error (timers st) n) as [s|] eqn:E; [|reflexivity].
  rewrite step_messages; [reflexivity|].
  cbn. apply Ht. eapply nth_error_In. exact E.
Qed.

Lemma tick_aims n st : aimsAtUser st -> aimsAtUser (tick n st).
Proof.
  intros H. pose proof (tick_messages n st H) as Hm. destruct H as [Ht Ha].
  unfold tick in *.
  destruct (nth_error (timers st) n) as [s|] eqn:E; [|split; assumption].
  assert (Hs : In s (timers st)) by (eapply nth_error_In; exact E).
  split.
  - intros s'. rewrite Hm, step_timers. cbn. intros Hin.
    apply in_app_or in Hin as [Hin|Hin].
    + apply Ht. apply in_app_or in Hin as [Hin|Hin].
      * rewrite <- (firstn_skipn n). apply in_or_app. left. exact Hin.
      * rewrite <- (firstn_skipn (S n)). apply in_or_app. right. exact Hin.
    + rewrite (successor_startIndex _ _ Hin). auto.
  - intros call. rewrite Hm, step_awaiting, step_loading. cbn. apply Ha.
Qed.

Lemma react_aims ev st : aimsAtUser st -> aimsAtUser (react ev st).
Proof.
  destruct ev; simpl.
  - intros H. exact H.
  - apply handleSend_aims.
  - apply resume_aims.
  - apply tick_aims.
Qed.

Lemma reachable_aims st : reachable st -> aimsAtUser st.
Proof.
  induction 1 as [|ev st _ IH].
  - split; [intros s []|discriminate].
  - apply react_aims. exact IH.
Qed.

Lemma run_reachable evs : forall st, reachable st -> reachable (run evs st).
Proof.
  induction evs as [|ev evs IH]; intros st H; simpl; [exact H|].
  apply IH. constructor. exact H.
Qed.

Lemma run_ticks_messages ns :
  forall st, aimsAtUser st -> messages (run (map Tick ns) st) = messages st.
Proof.
  induction ns as [|n ns IH]; intros st H; simpl; [reflexivity|].
  rewrite IH by (apply tick_aims; exact H). apply tick_messages. exact H.
Qed.

(** ** The transcript only grows *)

Lemma handleSend_messages e st :
  let u := {| role := user; content := trim (input st) |} in
  messages (handleSend e st) = messages st \/
  messages (handleSend e st) = messages st ++ [u] \/
  messages (handleSend e st) = messages st ++ [u; {| role := model; content := "" |}].
Proof.
  intros u. unfold handleSend.
  destruct (String.eqb (trim (input st)) "" || loading st); [left; reflexivity|].
  right. cbn [lastIntentRef setInput setMessages setLoading].
  destruct (isEscalate (lastIntentRef st) && test affirmativePattern (trim (input st))).
  - right. cbn. apply streamModelReply_messages. reflexivity.
  - destruct (runToolForIntent (detectIntent (trim (input st))) e).
    + right. cbn. apply streamModelReply_messages. reflexivity.
    + left. reflexivity.
Qed.

Lemma resume_messages o st :
  aimsAtUser st ->
  messages (resume o st) = messages st \/
  messages (resume o st) = messages st ++ [ {| role := model; content := "" |} ] \/
  messages (resume o st) = messages st ++ [apology].
Proof.
  intros [_ Ha]. unfold resume.
  destruct (awaiting st) as [call|] eqn:E; [|left; reflexivity].
  destruct (Ha call eq_refl) as [_ [u Hm]]. right.
  destruct o as [reply|].
  - left. cbn.
    rewrite (streamModelReply_messages (callMessages call) u); [|exact Hm].
    rewrite Hm, <- app_assoc. reflexivity.
  - right. reflexivity.
Qed.

Lemma react_appends ev st :
  aimsAtUser st ->
  exists suffix,
    messages (react ev st) = messages st ++ suffix /\ Forall blankOrApology suffix.
Proof.
  intros H. destruct ev as [v|e|o|n]; simpl.
  - exists []. split; [symmetry; apply app_nil_r|constructor].
  - destruct (handleSend_messages e st) as [E|[E|E]]; rewrite E.
    + exists []. split; [symmetry; apply app_nil_r|constructor].
    + eexists. split; [reflexivity|].
      apply Forall_cons; [discriminate|constructor].
    + eexists. split; [reflexivity|].
      apply Forall_cons; [discriminate|].
      apply Forall_cons; [intros _; left; reflexivity|constructor].
  - destruct (resume_messages o st H) as [E|[E|E]]; rewrite E.
    + exists []. split; [symmetry; apply app_nil_r|constructor].
    + eexists. split; [reflexivity|].
      apply Forall_cons; [intros _; left; reflexivity|constructor].
    + eexists. split; [reflexivity|].
      apply Forall_cons; [intros _; right; reflexivity|constructor].
  - rewrite tick_messages by exact H.
    exists []. split; [symmetry; apply app_nil_r|constructor].
Qed.

Lemma run_appends evs :
  forall st, aimsAtUser st ->
    exists suffix, messages (run evs st) = messages st ++ suffix.
Proof.
  induction evs as [|ev evs IH]; intros st H; simpl.
  - exists []. symmetry. apply app_nil_r.
  - destruct (IH _ (react_aims ev st H)) as [l2 E2].
    destruct (react_appends ev st H) as (l1 & E1 & _).
    exists (l1 ++ l2). rewrite E2, E1, app_assoc. reflexivity.
Qed.

(** X14. No streamed text ever reaches the transcript: in every reachable
    state the transcript is the greeting followed by messages of which
    each model message is empty or the apology. *)
Lemma reachable_model_messages st :
  reachable st ->
  exists l, messages st = messages initial ++ l /\ Forall blankOrApology l.
Proof.
  induction 1 as [|ev st Hr (l & E & Hl)].
  - exists []. split; [reflexivity|constructor].
  - destruct (react_appends ev st (reachable_aims st Hr)) as (l' & E' & Hl').
    exists (l ++ l'). split.
    + rewrite E', E, app_assoc. reflexivity.
    + apply Forall_app. split; assumption.
Qed.

(** ** The escalation sub-dialogue *)

Lemma ticketId_length e : String.length (ticketId e) <= 6.
Proof.
  unfold ticketId, toUpperCase, slice.
  rewrite <- length_chars, !chars_text, length_map.
  apply firstn_le_length.
Qed.

(** With the offer pending and an affirmative input, the turn skips
    classification: the ticket reply, with its tone, goes to the
    streamer, and [lastIntentRef] is not written. *)
Lemma confirmation_turn e st :
  String.eqb (trim (input st)) "" || loading st = false ->
  lastIntentRef st = escalate ->
  test affirmativePattern (trim (input st)) = true ->
  handleSend e st
  = setLoading false
      (setSuggestions ["Add more details"; "Update my email"; "Anything else?"]
         (streamModelReply (messages st)
            (applyTone (ticketReply e) (trim (input st)))
            (setInput ""
               (setMessages
                  (fun _ => messages st ++
                            [ {| role := user; content := trim (input st) |} ])
                  (setLoading true st))))).
Proof.
  intros Hg Hl Ha. unfold handleSend. rewrite Hg.
  cbn [lastIntentRef setInput setMessages setLoading]. rewrite Hl, Ha.
  reflexivity.
Qed.

(** C1, at one half. With the escalation offer pending and the input
    [yes], a random value of one half, which prints as [0.i] in radix 36,
    gives a ticket-confirmation reply whose ticket identifier is the
    single character [I]; the identifier is empty for the random value
    zero. *)
Theorem ticket_of_one_half :
  lastIntentRef pendingOffer = escalate /\
  test affirmativePattern "yes" = true /\
  toString36 [true] = "0.i" /\
  ticketId (env0 [true]) = "I" /\
  ticketId (env0 []) = "" /\
  timers (run [Typed "yes"; Send (env0 [true])] pendingOffer)
  = timers pendingOffer ++
    [ {| startIndex := 3;
         fullText := "Okay, connecting you to a human agent. I created support ticket #I. An agent will reach out by email shortly.";
         i := 1 |} ].
Proof. repeat split; vm_compute; reflexivity. Qed.

(** C2, counterexample. With the offer pending, the affirmative input
    [yes] leaves [lastIntentRef] at [escalate]: the offer is still
    pending on the following turn. *)
Lemma offer_survives_yes :
  lastIntentRef pendingOffer = escalate /\
  test affirmativePattern "yes" = true /\
  lastIntentRef (run [Typed "yes"; Send (env0 [true])] pendingOffer) = escalate.
Proof. repeat split; vm_compute; reflexivity. Qed.

(** C2, amended. In a turn that begins with [lastIntentRef] at
    [escalate], an affirmative input skips classification and leaves
    [lastIntentRef] at [escalate]; any other input is classified and
    [lastIntentRef] becomes its intent. *)
Theorem escalation_turn (e : Env) (st : AppState) :
  lastIntentRef st = escalate ->
  String.eqb (trim (input st)) "" || loading st = false ->
  lastIntentRef (handleSend e st)
  = if test affirmativePattern (trim (input st)) then escalate
    else detectIntent (trim (input st)).
Proof.
  intros Hl Hg. unfold handleSend. rewrite Hg.
  cbn [lastIntentRef setInput setMessages setLoading]. rewrite Hl.
  cbn [isEscalate andb].
  destruct (test affirmativePattern (trim (input st))).
  - cbn. rewrite streamModelReply_lastIntentRef. cbn. exact Hl.
  - destruct (runToolForIntent (detectIntent (trim (input st))) e).
    + cbn. rewrite streamModelReply_lastIntentRef. reflexivity.
    + reflexivity.
Qed.

Lemma escalation_turn_witness :
  lastIntentRef (setInput "yes" pendingOffer) = escalate /\
  lastIntentRef (handleSend (env0 [true]) (setInput "yes" pendingOffer)) = escalate.
Proof.
  split; [reflexivity|].
  exact (escalation_turn (env0 [true]) (setInput "yes" pendingOffer) eq_refl eq_refl).
Defined.

(** ** Streaming *)

(** C3, on a return-policy turn. The reply handed to the streamer is the
    return-policy text, its first step aims at the user's message, and
    when all its steps have run the message appended for it is still
    empty. *)
Theorem stream_leaves_message_empty :
  let turn := [Typed "What is your return policy?"; Send (env0 [])] in
  timers (run turn initial)
  = [ {| startIndex := 1;
         fullText := applyTone (title toolReturnPolicy +++ ":" +++ newline
                                +++ body toolReturnPolicy)
                               "What is your return policy?";
         i := 1 |} ] /\
  let st := run (turn ++ repeat (Tick 0) 160) initial in
  timers st = [] /\
  streamingIndex st = None /\
  messages st
  = messages initial ++
    [ {| role := user; content := "What is your return policy?" |};
      {| role := model; content := "" |} ].
Proof. repeat split; vm_compute; reflexivity. Qed.

(** C4. When a new turn starts in a reachable state in which steps of an
    earlier stream are still scheduled, no sequence of steps run after it
    changes the transcript, and whatever happens later every message
    then present keeps its place and content: the new model message is
    not overwritten and the earlier one is not touched. *)
Theorem superseded_stream_inert (st : AppState) (e : Env) :
  reachable st ->
  timers st <> [] ->
  messages (handleSend e st) <> messages st ->
  (forall ns, messages (run (map Tick ns) (handleSend e st))
              = messages (handleSend e st)) /\
  (forall evs, exists suffix,
      messages (run evs (handleSend e st)) = messages (handleSend e st) ++ suffix).
Proof.
  intros Hr _ _.
  assert (H : aimsAtUser (handleSend e st)).
  { apply handleSend_aims, reachable_aims. exact Hr. }
  split.
  - intros ns. apply run_ticks_messages. exact H.
  - intros evs. apply run_appends. exact H.
Qed.

Lemma superseded_stream_inert_witness :
  messages (run (map Tick [0; 1; 0])
              (handleSend (env0 [true]) (setInput "yes" pendingOffer)))
  = messages (handleSend (env0 [true]) (setInput "yes" pendingOffer)).
Proof.
  refine (proj1 (superseded_stream_inert (setInput "yes" pendingOffer) (env0 [true])
                   _ _ _) [0; 1; 0]).
  - exact (reach_react (Typed "yes") _
             (reach_react (Send (env0 [])) _
                (reach_react (Typed "talk to a human") _ reach_initial))).
  - vm_compute. discriminate.
  - vm_compute. discriminate.
Defined.

(** ** Failure of the external model *)

(** C9. When the external call of a waiting turn is rejected, the
    apology is appended to the transcript as it is, no step is scheduled
    and the streaming index is untouched, loading is cleared, and no call
    is pending any more, so that a later answer changes nothing. *)
Theorem external_failure (st : AppState) :
  awaiting st <> None ->
  let st' := resume Rejected st in
  messages st' = messages st ++ [apology] /\
  timers st' = timers st /\
  streamingIndex st' = streamingIndex st /\
  loading st' = false /\
  awaiting st' = None /\
  forall o, resume o st' = st'.
Proof.
  intros H. unfold resume.
  destruct (awaiting st) as [call|]; [|contradiction].
  cbn. repeat split.
Qed.

Lemma external_failure_witness :
  awaiting waiting <> None /\
  messages (resume Rejected waiting) = messages waiting ++ [apology] /\
  loading (resume Rejected waiting) = false.
Proof.
  assert (H : awaiting waiting <> None) by (vm_compute; discriminate).
  split; [exact H|].
  destruct (external_failure waiting H) as (H1 & _ & _ & H2 & _).
  split; assumption.
Defined.

(** * Further properties *)

(** ** Trimming *)

Lemma dropWhile_split p l :
  exists pre, l = pre ++ dropWhile p l /\ forallb p pre = true.
Proof.
  induction l as [|a l (pre & E & H)]; simpl.
  - exists []. auto.
  - destruct (p a) eqn:Hp.
    + exists (a :: pre). simpl. rewrite Hp, H. split; [f_equal; exact E|reflexivity].
    + exists []. auto.
Qed.

Lemma dropWhile_head p l x l' : dropWhile p l = x :: l' -> p x = false.
Proof.
  induction l as [|a l IH]; simpl; [discriminate|].
  destruct (p a) eqn:Hp; [exact IH|].
  intros E. injection E as <- _. exact Hp.
Qed.

Lemma dropWhile_all p l : forallb p l = true -> dropWhile p l = [].
Proof.
  induction l as [|a l IH]; simpl; [reflexivity|].
  intros H. apply andb_true_iff in H as [-> H]. auto.
Qed.

Lemma dropWhile_nil p l : dropWhile p l = [] -> forallb p l = true.
Proof.
  intros E. destruct (dropWhile_split p l) as (pre & E' & H).
  rewrite E, app_nil_r in E'. subst pre. exact H.
Qed.

Lemma dropWhile_keeps p l : (forall x l', l = x :: l' -> p x = false) -> dropWhile p l = l.
Proof.
  destruct l as [|a l]; simpl; [reflexivity|].
  intros H. rewrite (H a l eq_refl). reflexivity.
Qed.

Lemma hd_rev_after l prev : after prev l = match rev l with x :: _ => Some x | [] => prev end.
Proof.
  revert prev. induction l as [|a l IH]; intros prev; [reflexivity|].
  change (after prev (a :: l)) with (after (Some a) l). rewrite IH. simpl.
  destruct (rev l); reflexivity.
Qed.

Lemma forallb_reverse (p : ascii -> bool) l : forallb p (rev l) = forallb p l.
Proof.
  induction l as [|a l IH]; simpl; [reflexivity|].
  rewrite forallb_app, IH. simpl. rewrite andb_true_r. apply andb_comm.
Qed.

(** The characters that [trim] keeps: no space character at either end. *)
Lemma trim_ends s :
  isSpaceOpt (firstChar (trim s)) = false /\ isSpaceOpt (lastChar (trim s)) = false.
Proof.
  unfold firstChar, lastChar, trim. rewrite !chars_text.
  set (l1 := dropWhile isSpace (chars s)).
  set (l3 := dropWhile isSpace (rev l1)).
  split.
  - destruct (rev l3) as [|x r] eqn:E; [reflexivity|]. simpl.
    destruct (dropWhile_split isSpace (rev l1)) as (pre & E1 & _). fold l3 in E1.
    apply (f_equal (@rev ascii)) in E1. rewrite rev_involutive, rev_app_distr, E in E1.
    simpl in E1. exact (dropWhile_head isSpace (chars s) _ _ E1).
  - rewrite hd_rev_after, rev_involutive.
    destruct l3 as [|x r] eqn:E; [reflexivity|]. simpl.
    exact (dropWhile_head isSpace (rev l1) _ _ E).
Qed.

(** [trim] gives the empty text exactly for texts of space characters. *)
Lemma trim_empty_iff s : trim s = "" <-> forallb isSpace (chars s) = true.
Proof.
  unfold trim. split.
  - intros E. apply (f_equal chars) in E. rewrite chars_text in E. simpl in E.
    apply (f_equal (@rev ascii)) in E. rewrite rev_involutive in E. simpl in E.
    apply dropWhile_nil in E. rewrite forallb_reverse in E.
    destruct (dropWhile isSpace (chars s)) as [|x l] eqn:E1.
    + apply dropWhile_nil. exact E1.
    + apply dropWhile_head in E1. simpl in E. rewrite E1 in E. discriminate.
  - intros H. rewrite (dropWhile_all _ _ H). reflexivity.
Qed.

Lemma trim_tidy s : trim s <> "" -> tidy (trim s).
Proof.
  intros H. split; [exact H|]. apply trim_ends.
Qed.

(** ** The turn handler, case by case *)

Lemma step_input s st : input (step s st) = input st.
Proof. unfold step. destruct (_ <=? _); reflexivity. Qed.

Lemma step_suggestions s st : suggestions (step s st) = suggestions st.
Proof. unfold step. destruct (_ <=? _); reflexivity. Qed.

Lemma streamModelReply_input messages0 fullText st :
  input (streamModelReply messages0 fullText st) = input st.
Proof. unfold streamModelReply. rewrite step_input. reflexivity. Qed.

Lemma runToolForIntent_none intent e :
  runToolForIntent intent e = None <-> intent = unknown.
Proof. destruct intent; simpl; split; congruence. Qed.

Lemma chips_suggestionsFor intent : chips (suggestionsFor intent) = true.
Proof. destruct intent; vm_compute; reflexivity. Qed.

(** The three ways a turn can go: refused; answered by the confirmation
    branch or a tool, with a stream started; or handed to the external
    model. *)
Lemma handleSend_cases e st :
  let t := trim (input st) in
  let u := {| role := user; content := t |} in
  let confirm := isEscalate (lastIntentRef st) && test affirmativePattern t in
  let st' := handleSend e st in
  (sendDisabled st = true /\ st' = st) \/
  (sendDisabled st = false /\ input st' = "" /\
   (confirm = true \/ detectIntent t <> unknown) /\
   messages st' = messages st ++ [u; {| role := model; content := "" |}] /\
   awaiting st' = awaiting st /\ loading st' = false /\
   chips (suggestions st') = true) \/
  (sendDisabled st = false /\ input st' = "" /\
   confirm = false /\ detectIntent t = unknown /\
   messages st' = messages st ++ [u] /\
   (exists call, awaiting st' = Some call /\ callTrimmed call = t /\
                 callMessages call = messages st) /\
   loading st' = true /\ suggestions st' = suggestions st).
Proof.
  intros t u confirm st'. subst st'. unfold handleSend, sendDisabled.
  rewrite (orb_comm (loading st)). fold t.
  destruct (String.eqb t "" || loading st); [left; auto|]. right.
  cbn [lastIntentRef setInput setMessages setLoading]. fold confirm.
  destruct confirm.
  - left. cbn. rewrite streamModelReply_input, streamModelReply_awaiting.
    rewrite (streamModelReply_messages (messages st) t); [|reflexivity].
    repeat split; auto.
  - destruct (runToolForIntent (detectIntent t) e) as [toolResult|] eqn:Ht.
    + left. cbn. rewrite streamModelReply_input, streamModelReply_awaiting.
      rewrite (streamModelReply_messages (messages st) t); [|reflexivity].
      repeat split; auto.
      * right. intros Hu. rewrite Hu in Ht. discriminate.
      * apply chips_suggestionsFor.
    + right. apply runToolForIntent_none in Ht. cbn.
      repeat split; auto. eexists. repeat split.
Qed.

(** The two ways a waiting turn ends. *)
Lemma resume_cases o st call :
  aimsAtUser st -> awaiting st = Some call ->
  let st' := resume o st in
  awaiting st' = None /\ loading st' = false /\ input st' = input st /\
  match o with
  | Resolved _ =>
      messages st' = messages st ++ [ {| role := model; content := "" |} ] /\
      chips (suggestions st') = true
  | Rejected =>
      messages st' = messages st ++ [apology] /\ suggestions st' = suggestions st
  end.
Proof.
  intros [_ Ha] E. destruct (Ha call E) as [_ [u Hm]].
  unfold resume. rewrite E. destruct o as [reply|]; cbn.
  - rewrite streamModelReply_awaiting, streamModelReply_input.
    rewrite (streamModelReply_messages (callMessages call) u); [|exact Hm].
    rewrite Hm, <- app_assoc. repeat split.
  - repeat split.
Qed.

Lemma tick_fields n st :
  awaiting (tick n st) = awaiting st /\ loading (tick n st) = loading st /\
  suggestions (tick n st) = suggestions st /\ input (tick n st) = input st.
Proof.
  unfold tick. destruct (nth_error (timers st) n); [|auto].
  rewrite step_awaiting, step_loading, step_suggestions, step_input. auto.
Qed.

(** ** The shape of the component's state *)

Lemma lastRole_snoc l m : lastRole (l ++ [m]) = Some (role m).
Proof. unfold lastRole. rewrite rev_app_distr. reflexivity. Qed.

Lemma lastRole_cons a l : l <> [] -> lastRole (a :: l) = lastRole l.
Proof.
  intros H. unfold lastRole. simpl.
  destruct (rev l) as [|x r] eqn:E; [|reflexivity].
  apply (f_equal (@rev ChatMessage)) in E. rewrite rev_involutive in E. contradiction.
Qed.

Lemma alternating_snoc l m :
  alternating (l ++ [m])
  = alternating l &&
    match lastRole l with
    | Some r => negb (sameRole r (role m))
    | None => true
    end.
Proof.
  induction l as [|a l IH]; [reflexivity|].
  destruct l as [|b l].
  - simpl. rewrite andb_true_r. reflexivity.
  - change (alternating ((a :: b :: l) ++ [m]))
      with (negb (sameRole (role a) (role b)) && alternating ((b :: l) ++ [m])).
    rewrite IH, (lastRole_cons a (b :: l)) by discriminate.
    change (alternating (a :: b :: l))
      with (negb (sameRole (role a) (role b)) && alternating (b :: l)).
    apply andb_assoc.
Qed.

Lemma shape_not_waiting st :
  shape st -> sendDisabled st = false ->
  awaiting st = None /\ trim (input st) <> "".
Proof.
  intros (Hl & _) Hd. unfold sendDisabled in Hd.
  apply orb_false_iff in Hd as [Hd1 Hd2]. split.
  - destruct (awaiting st); [congruence|reflexivity].
  - exact (proj1 (String.eqb_neq _ _) Hd2).
Qed.

Lemma handleSend_shape e st : shape st -> shape (handleSend e st).
Proof.
  intros H.
  destruct (handleSend_cases e st)
    as [[_ ->]|[(Hd & _ & _ & Hm & Ha & Hl & Hs)
               |(Hd & _ & _ & _ & Hm & (call & Ha & _) & Hl & Hs)]];
    [exact H| |];
    destruct (shape_not_waiting st H Hd) as [Hn Ht];
    destruct H as (_ & Hc & Halt & Hlast & Hu);
    rewrite Hn in Hlast; unfold shape; rewrite Hm, Ha, Hl, ?Hn.
  - change (messages st ++ [?a; ?b]) with (messages st ++ [a] ++ [b]).
    rewrite app_assoc.
    repeat split; auto.
    + rewrite !alternating_snoc, lastRole_snoc, Halt, Hlast. reflexivity.
    + apply lastRole_snoc.
    + apply Forall_app. split; [apply Forall_app; split; [exact Hu|]|].
      * constructor; [|constructor]. intros _. apply trim_tidy. exact Ht.
      * constructor; [discriminate|constructor].
  - rewrite Hs. repeat split; auto.
    + rewrite alternating_snoc, Halt, Hlast. reflexivity.
    + apply lastRole_snoc.
    + apply Forall_app. split; [exact Hu|].
      constructor; [|constructor]. intros _. apply trim_tidy. exact Ht.
Qed.

Lemma resume_shape o st : aimsAtUser st -> shape st -> shape (resume o st).
Proof.
  intros Haim H.
  destruct (awaiting st) as [call|] eqn:E.
  - destruct (resume_cases o st call Haim E) as (Ha & Hl & _ & Ho).
    destruct H as (_ & Hc & Halt & Hlast & Hu). rewrite E in Hlast.
    unfold shape. rewrite Ha, Hl.
    destruct o as [reply|]; destruct Ho as [Hm Hs]; rewrite Hm.
    + repeat split; auto.
      * rewrite alternating_snoc, Halt, Hlast. reflexivity.
      * apply lastRole_snoc.
      * apply Forall_app. split; [exact Hu|]. constructor; [discriminate|constructor].
    + rewrite Hs. repeat split; auto.
      * rewrite alternating_snoc, Halt, Hlast. reflexivity.
      * apply lastRole_snoc.
      * apply Forall_app. split; [exact Hu|]. constructor; [discriminate|constructor].
  - unfold resume. rewrite E. exact H.
Qed.

Lemma tick_shape n st : aimsAtUser st -> shape st -> shape (tick n st).
Proof.
  intros Haim H. unfold shape.
  destruct (tick_fields n st) as (-> & -> & -> & _).
  rewrite (tick_messages n st Haim). exact H.
Qed.

Lemma reachable_shape st : reachable st -> shape st.
Proof.
  induction 1 as [|ev st Hr IH].
  - unfold shape. cbn. repeat split; auto.
    constructor; [discriminate|constructor].
  - pose proof (reachable_aims st Hr) as Haim.
    destruct ev as [v|e|o|n]; simpl.
    + exact IH.
    + apply handleSend_shape. exact IH.
    + apply resume_shape; assumption.
    + apply tick_shape; assumption.
Qed.

(** X1. When the Send button is disabled, a call of [handleSend] leaves
    the whole state as it is, and otherwise it appends the trimmed input
    as a message of the user right after the transcript and empties the
    input field; for an input of ASCII characters the button is disabled
    exactly when the component is loading or the input consists of space
    characters only. *)
Theorem send_button (e : Env) (st : AppState) :
  (forallb isAscii (chars (input st)) = true ->
   sendDisabled st = loading st || forallb isSpace (chars (input st))) /\
  if sendDisabled st then handleSend e st = st
  else exists rest,
         messages (handleSend e st)
         = messages st ++ {| role := user; content := trim (input st) |} :: rest /\
         input (handleSend e st) = "".
Proof.
  split.
  - intros _. unfold sendDisabled. f_equal.
    destruct (forallb isSpace (chars (input st))) eqn:H.
    + apply String.eqb_eq, trim_empty_iff. exact H.
    + apply String.eqb_neq. intros E. apply trim_empty_iff in E. congruence.
  - destruct (handleSend_cases e st)
      as [[-> E]|[(-> & Hi & _ & Hm & _)|(-> & Hi & _ & _ & Hm & _)]].
    + exact E.
    + eexists. split; [exact Hm|exact Hi].
    + eexists. split; [exact Hm|exact Hi].
Qed.

Lemma send_button_witness :
  sendDisabled (setInput "   " initial)
  = loading (setInput "   " initial) || forallb isSpace (chars "   ") /\
  handleSend (env0 []) (setInput "   " initial) = setInput "   " initial.
Proof.
  split.
  - exact (proj1 (send_button (env0 []) (setInput "   " initial)) eq_refl).
  - exact (proj2 (send_button (env0 []) (setInput "   " initial))).
Defined.

(** X2. In every reachable state the component is loading exactly while
    a turn waits for the external model: turns answered by a tool or by
    the confirmation branch end with loading cleared. *)
Theorem loading_iff_waiting (st : AppState) :
  reachable st -> (loading st = true <-> awaiting st <> None).
Proof.
  intros H. destruct (reachable_shape st H) as (Hl & _). rewrite Hl.
  destruct (awaiting st); split; congruence.
Qed.

Lemma loading_iff_waiting_witness :
  loading waiting = true <-> awaiting waiting <> None.
Proof.
  apply loading_iff_waiting.
  exact (reach_react (Send (env0 [])) _
           (reach_react (Typed "hello there") _ reach_initial)).
Defined.

(** X3. In every reachable state the suggestion bar holds exactly three
    prompts, and clicking any of them gives an input that the Send button
    accepts unless the component is loading. *)
Theorem suggestions_usable (st : AppState) :
  reachable st ->
  List.length (suggestions st) = 3 /\
  forall s, In s (suggestions st) -> sendDisabled (setInput s st) = loading st.
Proof.
  intros H. destruct (reachable_shape st H) as (_ & Hc & _).
  unfold chips in Hc. apply andb_true_iff in Hc as [Hn Hb].
  split; [apply Nat.eqb_eq; exact Hn|].
  intros s Hin. unfold sendDisabled. cbn [input loading setInput].
  rewrite forallb_forall in Hb. specialize (Hb s Hin).
  apply negb_true_iff in Hb. rewrite Hb. apply orb_false_r.
Qed.

Lemma suggestions_usable_witness :
  List.length (suggestions pendingOffer) = 3 /\
  sendDisabled (setInput "Yes, connect me" pendingOffer) = loading pendingOffer.
Proof.
  destruct (suggestions_usable pendingOffer) as [H1 H2].
  - exact (reach_react (Send (env0 [])) _
             (reach_react (Typed "talk to a human") _ reach_initial)).
  - split; [exact H1|]. apply H2. vm_compute. left. reflexivity.
Defined.

(** X4. In every reachable state the roles of the transcript alternate,
    and the transcript ends with a message of the user exactly while a
    turn waits for the external model. *)
Theorem transcript_alternates (st : AppState) :
  reachable st ->
  alternating (messages st) = true /\
  (lastRole (messages st) = Some user <-> awaiting st <> None).
Proof.
  intros H. destruct (reachable_shape st H) as (_ & _ & Ha & Hl & _).
  split; [exact Ha|]. rewrite Hl.
  destruct (awaiting st); split; congruence.
Qed.

Lemma transcript_alternates_witness :
  alternating (messages pendingOffer) = true /\
  (lastRole (messages pendingOffer) = Some user <-> awaiting pendingOffer <> None).
Proof.
  apply transcript_alternates.
  exact (reach_react (Send (env0 [])) _
           (reach_react (Typed "talk to a human") _ reach_initial)).
Defined.

(** X5. In every reachable state each message of the user in the
    transcript is non-empty and neither starts nor ends with a space
    character. *)
Theorem user_messages_tidy (st : AppState) :
  reachable st ->
  forall m, In m (messages st) -> role m = user -> tidy (content m).
Proof.
  intros H m Hin. destruct (reachable_shape st H) as (_ & _ & _ & _ & Hu).
  rewrite Forall_forall in Hu. exact (Hu m Hin).
Qed.

Lemma user_messages_tidy_witness :
  tidy "talk to a human".
Proof.
  apply (user_messages_tidy pendingOffer
           (reach_react (Send (env0 [])) _
              (reach_react (Typed "talk to a human") _ reach_initial))
           {| role := user; content := "talk to a human" |}).
  - vm_compute. right. left. reflexivity.
  - reflexivity.
Defined.

(** The witness of the invariant on model messages. *)
Lemma reachable_model_messages_witness :
  exists l, messages pendingOffer = messages initial ++ l /\ Forall blankOrApology l.
Proof.
  apply reachable_model_messages.
  exact (reach_react (Send (env0 [])) _
           (reach_react (Typed "talk to a human") _ reach_initial)).
Defined.

(** ** Every stream ends *)

Lemma increment_pos fullText : 1 <= increment fullText.
Proof. unfold increment. lia. Qed.

Lemma successor_remaining s :
  list_sum (map remaining (successor s)) < remaining s.
Proof.
  unfold successor, remaining. pose proof (increment_pos (fullText s)).
  destruct (Nat.leb_spec (i s + increment (fullText s)) (String.length (fullText s)));
    simpl; lia.
Qed.

Lemma list_sum_map_app (f : Stream -> nat) l l' :
  list_sum (map f (l ++ l')) = list_sum (map f l) + list_sum (map f l').
Proof. rewrite map_app. apply list_sum_app. Qed.

Lemma tick_head s rest st :
  timers st = s :: rest -> tick 0 st = step s (setTimers rest st).
Proof. intros E. unfold tick. rewrite E. reflexivity. Qed.

Lemma tick_pending s rest st :
  timers st = s :: rest -> pending (tick 0 st) < pending st.
Proof.
  intros E. rewrite (tick_head s rest st E). unfold pending.
  rewrite step_timers, E. cbn [timers setTimers].
  rewrite list_sum_map_app. pose proof (successor_remaining s) as H.
  cbn [map list_sum fold_right]. unfold list_sum in *. lia.
Qed.

Lemma run_idle n st : timers st = [] -> run (repeat (Tick 0) n) st = st.
Proof.
  intros E. induction n as [|n IH]; [reflexivity|].
  simpl. unfold tick. rewrite E. exact IH.
Qed.

Lemma step_last s st : successor s = [] -> streamingIndex (step s st) = None.
Proof.
  unfold step, successor. destruct (_ <=? _); [discriminate|reflexivity].
Qed.

Lemma drain n :
  forall st, pending st <= n ->
    timers (run (repeat (Tick 0) n) st) = [] /\
    (timers st <> [] -> streamingIndex (run (repeat (Tick 0) n) st) = None).
Proof.
  induction n as [|n IH]; intros st Hp.
  - assert (E : timers st = []).
    { unfold pending in Hp. destruct (timers st) as [|s rest]; [reflexivity|].
      unfold remaining in Hp. simpl in Hp. lia. }
    split; [exact E|]. intros H. contradiction.
  - destruct (timers st) as [|s rest] eqn:E.
    + rewrite run_idle by exact E. split; [exact E|]. intros H. contradiction.
    + pose proof (tick_pending s rest st E) as Hlt.
      change (run (repeat (Tick 0) (S n)) st) with (run (repeat (Tick 0) n) (tick 0 st)).
      destruct (IH (tick 0 st)) as [H1 H2]; [lia|].
      split; [exact H1|]. intros _.
      destruct (timers (tick 0 st)) as [|s' rest'] eqn:E'.
      * rewrite run_idle by exact E'.
        rewrite (tick_head s rest st E) in *. rewrite step_timers in E'.
        apply app_eq_nil in E' as [_ E']. apply step_last. exact E'.
      * apply H2. discriminate.
Qed.

(** X6. Every chain of reveal steps ends: after as many timer firings as
    there are steps left, one more than the characters not yet counted
    for each scheduled step, no step is scheduled any more, and if there
    was one the streaming index has been reset. *)
Theorem streams_end (st : AppState) :
  let st' := run (repeat (Tick 0) (pending st)) st in
  timers st' = [] /\ (timers st <> [] -> streamingIndex st' = None).
Proof. apply drain. apply Nat.le_refl. Qed.

(** ** The extracted order id *)

(** A match ends somewhere: at a suffix of the input where the
    continuation holds. *)
Lemma sem_end icase r :
  forall prev s c K,
    sem icase r prev s c K ->
    exists p' s' c' xs, s = xs ++ s' /\ K p' s' c'.
Proof.
  induction r; simpl; intros prev s c K H.
  - exists prev, s, c, []. auto.
  - destruct H as (x & s' & -> & _ & HK). exists (Some x), s', c, [x]. auto.
  - apply IHr1 in H as (p1 & s1 & c1 & xs & -> & H).
    apply IHr2 in H as (p2 & s2 & c2 & ys & -> & HK).
    exists p2, s2, c2, (xs ++ ys). rewrite <- app_assoc. auto.
  - destruct H as [H|H]; [apply IHr1 in H|apply IHr2 in H]; exact H.
  - destruct H as (xs & s' & -> & _ & _ & HK). exists (after prev xs), s', c, xs. auto.
  - apply IHr in H as (p' & s' & c' & xs & -> & HK).
    exists p', s', ((n, taken (xs ++ s') s') :: c'), xs. auto.
  - destruct H as [_ HK]. exists prev, s, c, []. auto.
  - destruct H as [_ HK]. exists prev, s, c, []. auto.
Qed.

Lemma sem_seq_end icase r1 r2 prev s c K :
  sem icase (Seq r1 r2) prev s c K ->
  exists p1 s1 c1 xs, s = xs ++ s1 /\ sem icase r2 p1 s1 c1 K.
Proof. simpl. apply sem_end. Qed.

Lemma id_attempt_sound prev s c :
  attempt true (source idPattern) prev s = Some c ->
  exists pre id rest,
    s = pre ++ id ++ rest /\ 5 <= List.length id /\
    forallb (in_cset true (CUnion (CRange "a" "z") (CUnion (CRange "0" "9") (CChar "-"))))
            id = true /\
    lookup 1 c = Some id.
Proof.
  intros H. apply attempt_sound in H.
  unfold idPattern, source in H.
  apply sem_seq_end in H as (p1 & s1 & c1 & xs1 & -> & H).
  apply sem_seq_end in H as (p2 & s2 & c2 & xs2 & -> & H).
  apply sem_seq_end in H as (p3 & s3 & c3 & ws & -> & H).
  cbn [sem] in H. destruct H as (id & rest & -> & Hlen & Hall & <-).
  exists (xs1 ++ xs2 ++ ws), id, rest. rewrite <- !app_assoc.
  repeat split; auto. simpl. rewrite taken_app. reflexivity.
Qed.

Lemma isUpper_lowerChar c : isUpper (lowerChar c) = false.
Proof. destruct c as [[] [] [] [] [] [] [] []]; reflexivity. Qed.

Lemma idChar_of_class x :
  in_cset true (CUnion (CRange "a" "z") (CUnion (CRange "0" "9") (CChar "-"))) x = true ->
  isUpper x = false -> idChar x = true.
Proof.
  destruct x as [[] [] [] [] [] [] [] []]; vm_compute; intros H1 H2;
    first [reflexivity|discriminate].
Qed.

Lemma toLowerCase_no_upper text x :
  In x (chars (toLowerCase text)) -> isUpper x = false.
Proof.
  unfold toLowerCase. rewrite chars_text. intros H.
  apply in_map_iff in H as (y & <- & _). apply isUpper_lowerChar.
Qed.

Lemma orderIdOf_detectIntent text id :
  orderIdOf (detectIntent text) = Some id ->
  group 1 idPattern (toLowerCase text) = Some id.
Proof.
  unfold detectIntent.
  repeat match goal with
         | |- context [if ?b then _ else _] => destruct b
         end; simpl; intros H; try discriminate; exact H.
Qed.

(** X7. An order id extracted by [detectIntent] has at least five
    characters, all of them lower-case letters, digits or hyphens, and
    occurs in the lower-cased text; in particular it is never empty. *)
Theorem orderId_shape (txt id : string) :
  orderIdOf (detectIntent txt) = Some id ->
  5 <= String.length id /\
  forallb idChar (chars id) = true /\
  occurs id (toLowerCase txt).
Proof.
  intros H. apply orderIdOf_detectIntent in H. unfold group, exec in H.
  destruct (search _ _ _ _) as [c|] eqn:Hs; [|discriminate].
  destruct (search_some _ _ _ _ _ Hs) as (pre0 & post & E & Hm & _).
  destruct (id_attempt_sound _ _ _ Hm) as (pre & idl & rest & -> & Hlen & Hall & Hc).
  rewrite Hc in H. injection H as <-.
  rewrite <- length_chars, chars_text. split; [exact Hlen|]. split.
  - apply forallb_forall. intros x Hx. apply idChar_of_class.
    + rewrite forallb_forall in Hall. auto.
    + apply (toLowerCase_no_upper txt). rewrite E.
      apply in_or_app. right. apply in_or_app. right. apply in_or_app. left. exact Hx.
  - exists (text (pre0 ++ pre)), (text rest).
    apply chars_inj. rewrite !chars_append, !chars_text, E, <- app_assoc. reflexivity.
Qed.

Lemma orderId_shape_witness :
  5 <= String.length "-99021" /\
  forallb idChar (chars "-99021") = true /\
  occurs "-99021" (toLowerCase "Where is my order #ORD-99021?").
Proof.
  exact (orderId_shape "Where is my order #ORD-99021?" "-99021" eq_refl).
Defined.

(** ** The shipping tool *)

(** X8. When the order id or the postal code is absent or empty, the
    shipping tool asks for both; otherwise its body names both and the
    date rendered for a moment that lies a whole number of days, between
    two and five, after now. *)
Theorem toolShippingEta_result (orderId postalCode : option string) (e : Env) :
  if falsy orderId || falsy postalCode then
    toolShippingEta orderId postalCode e
    = {| title := "Shipping ETA";
         body := "Share your order ID and destination ZIP to estimate delivery." |}
  else
    exists days,
      (2 <= days <= 5)%N /\
      toolShippingEta orderId postalCode e
      = {| title := "Shipping ETA";
           body := "Estimated delivery for " +++ str orderId +++ " to "
                   +++ str postalCode +++ ": "
                   +++ toDateString e (now e + days * 86400000)%N +++ "." |}.
Proof.
  unfold toolShippingEta. destruct (falsy orderId || falsy postalCode); [reflexivity|].
  exists (2 + N.of_nat (floorTimes 4 (rand e)))%N.
  pose proof (floorTimes_lt 4 (rand e) eq_refl) as H.
  split; [change (N.to_nat 4) with 4 in H; lia|].
  cbv zeta.
  replace (now e + (2 + N.of_nat (floorTimes 4 (rand e))) * 24 * 60 * 60 * 1000)%N
    with (now e + (2 + N.of_nat (floorTimes 4 (rand e))) * 86400000)%N by lia.
  reflexivity.
Qed.

(** ** Turns that go to the external model *)

Lemma append_assoc3 a b c : (a +++ b) +++ c = a +++ b +++ c.
Proof. apply chars_inj. rewrite !chars_append. symmetry. apply app_assoc. Qed.

Lemma join_snoc sep l x : l <> [] -> join sep (l ++ [x]) = join sep l +++ sep +++ x.
Proof.
  induction l as [|a l IH]; [congruence|]. intros _.
  destruct l as [|b l].
  - reflexivity.
  - change (join sep ((a :: b :: l) ++ [x]))
      with (a +++ sep +++ join sep ((b :: l) ++ [x])).
    rewrite IH by discriminate.
    change (join sep (a :: b :: l)) with (a +++ sep +++ join sep (b :: l)).
    rewrite !append_assoc3. reflexivity.
Qed.

(** X9. A turn is handed to the external model exactly when the Send
    button is enabled, the confirmation branch does not apply and the
    trimmed input is classified as [unknown]. *)
Theorem waits_iff_unknown (e : Env) (st : AppState) :
  awaiting st = None ->
  (awaiting (handleSend e st) <> None <->
   sendDisabled st = false /\
   isEscalate (lastIntentRef st) && test affirmativePattern (trim (input st)) = false /\
   detectIntent (trim (input st)) = unknown).
Proof.
  intros Hn.
  destruct (handleSend_cases e st)
    as [[Hd ->]|[(Hd & _ & Hc & _ & Ha & _)|(Hd & _ & Hc & Hu & _ & (call & Ha & _) & _)]].
  - rewrite Hn, Hd. split; [congruence|]. intros [H _]. discriminate.
  - rewrite Ha, Hn. split; [congruence|]. intros (_ & H1 & H2).
    destruct Hc as [Hc|Hc]; congruence.
  - rewrite Ha. split; [auto|discriminate].
Qed.

Lemma waits_iff_unknown_witness :
  awaiting (handleSend (env0 []) (setInput "hello there" initial)) <> None.
Proof.
  apply (waits_iff_unknown (env0 []) (setInput "hello there" initial) eq_refl).
  repeat split.
Defined.

(** X10. The prompt of a turn handed to the external model is the system
    prompt and the labelled messages of the transcript, joined by blank
    lines, and ends with the trimmed input labelled as the user's; the
    suspended turn keeps that input and the transcript its render saw. *)
Theorem prompt_layout (e : Env) (st : AppState) (call : Call) :
  awaiting st = None ->
  awaiting (handleSend e st) = Some call ->
  historyText call
  = join (newline +++ newline) (SUPPORT_SYSTEM_PROMPT :: map labelled (messages st))
    +++ (newline +++ newline) +++ "User: " +++ trim (input st) /\
  callTrimmed call = trim (input st) /\
  callMessages call = messages st.
Proof.
  intros Hn. unfold handleSend.
  destruct (String.eqb (trim (input st)) "" || loading st); [congruence|].
  cbn [lastIntentRef setInput setMessages setLoading].
  destruct (isEscalate (lastIntentRef st) && test affirmativePattern (trim (input st))).
  - cbn. rewrite streamModelReply_awaiting. cbn. congruence.
  - destruct (runToolForIntent (detectIntent (trim (input st))) e).
    + cbn. rewrite streamModelReply_awaiting. cbn. congruence.
    + cbn [awaiting setAwaiting]. set (prompt := join _ (_ :: map _ (_ ++ _))).
      intros H. injection H as <-. subst prompt.
      cbn [historyText callTrimmed callMessages]. split; [|split; reflexivity].
      rewrite map_app. cbn [map labelled role content].
      change (SUPPORT_SYSTEM_PROMPT :: map labelled (messages st) ++ ?l)
        with ((SUPPORT_SYSTEM_PROMPT :: map labelled (messages st)) ++ l).
      apply join_snoc. discriminate.
Qed.

Lemma prompt_layout_witness :
  exists call,
    awaiting waiting = Some call /\
    historyText call
    = join (newline +++ newline) (SUPPORT_SYSTEM_PROMPT :: map labelled (messages initial))
      +++ (newline +++ newline) +++ "User: hello there".
Proof.
  eexists. split; [reflexivity|].
  exact (proj1 (prompt_layout (env0 []) (setInput "hello there" initial) _
                  eq_refl eq_refl)).
Defined.

(** ** Tone *)

(** X11. [applyTone] puts one of three openers before the reply and
    leaves the reply itself as it is: the empathy sentence exactly when a
    negative term and no positive term occurs in the lower-cased text of
    the user, the cheerful one exactly when a positive and no negative
    term occurs, and nothing exactly when both kinds or neither occur. *)
Theorem applyTone_opener (reply userText : string) :
  let t := toLowerCase userText in
  let neg := occursAny negativeTerms t in
  let pos := occursAny positiveTerms t in
  exists opener,
    applyTone reply userText = opener +++ reply /\
    (opener = empathy <-> neg /\ ~ pos) /\
    (opener = cheer <-> pos /\ ~ neg) /\
    (opener = "" <-> (neg /\ pos) \/ (~ neg /\ ~ pos)).
Proof.
  intros t neg pos.
  assert (Hn : test negPattern t = true <-> neg)
    by (apply test_words; discriminate).
  assert (Hp : test posPattern t = true <-> pos)
    by (apply test_words; discriminate).
  unfold applyTone, analyzeSentiment. fold t.
  destruct (test negPattern t), (test posPattern t); simpl;
    [exists ""|exists empathy|exists cheer|exists ""];
    (split; [reflexivity|]);
    repeat split; intros; intuition (try discriminate; try congruence).
Qed.

(** ** The ticket identifier *)

Lemma upperChar_base36 c : base36 c = true -> ticketChar (upperChar c) = true.
Proof.
  destruct c as [[] [] [] [] [] [] [] []]; vm_compute; intros H;
    first [reflexivity|discriminate].
Qed.

Lemma ticketId_ticketOf e : ticketId e = ticketOf (toString36 (rand e)).
Proof. reflexivity. Qed.

Lemma ticketOf_chars digits :
  chars (ticketOf ("0." +++ text digits)) = map upperChar (firstn 6 digits).
Proof.
  unfold ticketOf, toUpperCase, slice.
  rewrite !chars_text, chars_append, chars_text. reflexivity.
Qed.

(** X12. Whatever digits the host prints after the point, the ticket
    identifier cut from ["0."] and digits of radix 36 is the upper-case
    form of the first six of them: six characters exactly when there are
    that many digits and fewer otherwise, each of them a digit or an
    upper-case letter. *)
Theorem ticketOf_shape (digits : list ascii) :
  forallb base36 digits = true ->
  ticketOf ("0." +++ text digits) = text (map upperChar (firstn 6 digits)) /\
  String.length (ticketOf ("0." +++ text digits)) = Nat.min 6 (List.length digits) /\
  forallb ticketChar (chars (ticketOf ("0." +++ text digits))) = true.
Proof.
  intros Hd. pose proof (ticketOf_chars digits) as H. split; [|split].
  - apply chars_inj. rewrite chars_text. exact H.
  - rewrite <- length_chars, H, length_map. apply length_firstn.
  - rewrite H. apply forallb_forall. intros x Hx.
    apply in_map_iff in Hx as (y & <- & Hy). apply upperChar_base36.
    rewrite forallb_forall in Hd. apply Hd.
    rewrite <- (firstn_skipn 6). apply in_or_app. left. exact Hy.
Qed.

Lemma ticketOf_shape_witness :
  ticketOf "0.n" = "N" /\ String.length (ticketOf "0.n") = 1.
Proof.
  destruct (ticketOf_shape (chars "n") eq_refl) as (H1 & H2 & _).
  split; [exact H1|exact H2].
Defined.

(** ** Case *)

Lemma lowerChar_upperChar c : lowerChar (upperChar c) = lowerChar c.
Proof. destruct c as [[] [] [] [] [] [] [] []]; reflexivity. Qed.

Lemma toLowerCase_toUpperCase s : toLowerCase (toUpperCase s) = toLowerCase s.
Proof.
  unfold toLowerCase, toUpperCase. rewrite chars_text, map_map. f_equal.
  apply map_ext. exact lowerChar_upperChar.
Qed.

(** X13. For a text of ASCII characters, the classification and the
    sentiment do not depend on case: the upper-cased text gets the same
    intent, with the same extracted fields, and the same sentiment. *)
Theorem classification_ignores_case (txt : string) :
  forallb isAscii (chars txt) = true ->
  detectIntent (toUpperCase txt) = detectIntent txt /\
  analyzeSentiment (toUpperCase txt) = analyzeSentiment txt.
Proof.
  intros _. unfold detectIntent, analyzeSentiment.
  rewrite toLowerCase_toUpperCase. split; reflexivity.
Qed.

Lemma classification_ignores_case_witness :
  detectIntent (toUpperCase "Where is my order #ord-99021?")
  = detectIntent "Where is my order #ord-99021?" /\
  analyzeSentiment (toUpperCase "Where is my order #ord-99021?")
  = analyzeSentiment "Where is my order #ord-99021?".
Proof.
  exact (classification_ignores_case "Where is my order #ord-99021?" eq_refl).
Defined.

(** ** The calls of the order-status tool *)

Lemma detected_id_nonempty txt id :
  orderIdOf (detectIntent txt) = Some id -> id <> "".
Proof.
  intros H. apply orderIdOf_detectIntent in H. unfold group, exec in H.
  destruct (search _ _ _ _) as [c|] eqn:Hs; [|discriminate].
  destruct (search_some _ _ _ _ _ Hs) as (pre0 & post & _ & Hm & _).
  destruct (id_attempt_sound _ _ _ Hm) as (pre & idl & rest & _ & Hlen & _ & Hc).
  rewrite Hc in H. injection H as <-.
  destruct idl; [simpl in Hlen; lia|discriminate].
Qed.

(** C7. A call of the order-status tool with [orderId] absent returns
    the clarifying question asking for an order ID, which is never a
    status body, for every random value; a call with an order id, which
    is one that [detectIntent] has extracted, returns a body that names
    that order id and a status of the fixed list Processing, Packed,
    Shipped, Out for delivery, Delivered. *)
Theorem toolOrderStatus_calls :
  (forall e,
     toolOrderStatus None e = {| title := "Order status"; body := askOrderId |} /\
     forall id status, body (toolOrderStatus None e) <> statusBody id status) /\
  (forall txt id e,
     detectIntent txt = order_status (Some id) ->
     exists status,
       In status statusList /\
       toolOrderStatus (Some id) e
       = {| title := "Order status"; body := statusBody id status |}).
Proof.
  split.
  - intros e. exact (toolOrderStatus_result None e).
  - intros txt id e H.
    assert (Hne : id <> "").
    { apply (detected_id_nonempty txt). rewrite H. reflexivity. }
    pose proof (toolOrderStatus_result (Some id) e) as Hr.
    destruct id as [|a id]; [contradiction|exact Hr].
Qed.

Lemma toolOrderStatus_calls_witness :
  exists status,
    In status statusList /\
    toolOrderStatus (Some "-99021") (env0 sixTenths)
    = {| title := "Order status"; body := statusBody "-99021" status |}.
Proof.
  exact (proj2 toolOrderStatus_calls "Where is my order #ORD-99021?" "-99021"
           (env0 sixTenths) eq_refl).
Defined.

(** At the double 0.6 the product with 5 rounds to 3: the status is the
    fourth of the list. *)
Lemma toolOrderStatus_at_six_tenths :
  (num sixTenths = 5404319552844595)%N /\
  floorTimes 5 sixTenths = 3 /\
  body (toolOrderStatus (Some "-99021") (env0 sixTenths))
  = statusBody "-99021" "Out for delivery".
Proof. repeat split; vm_compute; reflexivity. Qed.
